(** * LegalAPI: a shallow embedding of [DZ11/legal_api.py]

    The development follows the Python module top-down: Python strings and
    the few [str] methods the client uses, percent-encoding, JSON values,
    the exceptions and the single [LegalAPIError] kind with one constructor
    per [raise] site, the transport (a scripted server and an event log),
    and then the methods of [class LegalAPI] in source order.  Theorems
    follow the definitions. *)

From Stdlib Require Import ZArith NArith QArith List String Ascii Lia Permutation.
From stdpp Require Import base list sorting.

Set Default Proof Using "Type".
Set Warnings "-register-all".


(** ** Python strings *)

(** A Python [str] is a sequence of Unicode code points: [len] counts code
    points and [<] compares them lexicographically by code point. *)
Definition pystr := list N.

(** An ASCII literal of the source, as code points. *)
Definition lit (s : string) : pystr :=
  List.map N_of_ascii (list_ascii_of_string s).

Module PyStr.

(** [a < b], [a == b], [a > b] on [str]. *)
Fixpoint compare (a b : pystr) : comparison :=
  match a, b with
  | [], [] => Eq
  | [], _ :: _ => Lt
  | _ :: _, [] => Gt
  | x :: a', y :: b' =>
      match N.compare x y with
      | Eq => compare a' b'
      | c => c
      end
  end.

Definition leb (a b : pystr) : bool :=
  match compare a b with Gt => false | _ => true end.

Definition eqb (a b : pystr) : bool :=
  match compare a b with Eq => true | _ => false end.

(** [s.startswith(p)]. *)
Fixpoint starts_with (p s : pystr) : bool :=
  match p, s with
  | [], _ => true
  | _ :: _, [] => false
  | x :: p', y :: s' => N.eqb x y && starts_with p' s'
  end.

(** [needle in hay]. *)
Fixpoint contains (needle hay : pystr) : bool :=
  starts_with needle hay ||
  match hay with
  | [] => false
  | _ :: hay' => contains needle hay'
  end.

(** [s.replace(old, new)] for a non-empty [old]: occurrences are found
    left to right and do not overlap.  [skip] counts the characters of a
    matched occurrence that are still to be dropped. *)
Fixpoint replace_from (old new : pystr) (skip : nat) (s : pystr) : pystr :=
  match s with
  | [] => []
  | c :: s' =>
      match skip with
      | S k => replace_from old new k s'
      | O =>
          if starts_with old s
          then new ++ replace_from old new (length old - 1) s'
          else c :: replace_from old new 0 s'
      end
  end.

(** [s.replace(old, new)]; with an empty [old] Python inserts [new]
    before every character and at the end. *)
Definition replace (old new s : pystr) : pystr :=
  match old with
  | [] => new ++ flat_map (fun c => c :: new) s
  | _ :: _ => replace_from old new 0 s
  end.

Definition mem (c : N) (chars : pystr) : bool :=
  existsb (N.eqb c) chars.

(** [s.lstrip(chars)], [s.rstrip(chars)], [s.strip(chars)]. *)
Fixpoint lstrip (chars s : pystr) : pystr :=
  match s with
  | [] => []
  | c :: s' => if mem c chars then lstrip chars s' else s
  end.

Definition rstrip (chars s : pystr) : pystr :=
  rev (lstrip chars (rev s)).

Definition strip (chars s : pystr) : pystr :=
  rstrip chars (lstrip chars s).

(** ASCII case mapping, the restriction of [str.lower] and [str.upper]
    to the ASCII range; other code points are left alone. *)
Definition ascii_lower_cp (c : N) : N :=
  if (65 <=? c)%N && (c <=? 90)%N then (c + 32)%N else c.

Definition ascii_upper_cp (c : N) : N :=
  if (97 <=? c)%N && (c <=? 122)%N then (c - 32)%N else c.

Definition ascii_lower (s : pystr) : pystr := List.map ascii_lower_cp s.
Definition ascii_upper (s : pystr) : pystr := List.map ascii_upper_cp s.

End PyStr.

(** ** Percent-encoding: [requests.utils.quote(s, safe="")] *)

Module Quote.

(** The UTF-8 bytes of one code point; [None] is [UnicodeEncodeError]
    (a lone surrogate, which a Python [str] can hold). *)
Definition utf8_cp (c : N) : option (list N) :=
  (if c <? 128 then Some [c]
   else if c <? 2048 then Some [192 + c / 64; 128 + c mod 64]
   else if c <? 65536 then
     if (55296 <=? c) && (c <=? 57343) then None
     else Some [224 + c / 4096; 128 + (c / 64) mod 64; 128 + c mod 64]
   else if c <? 1114112 then
     Some [240 + c / 262144; 128 + (c / 4096) mod 64;
           128 + (c / 64) mod 64; 128 + c mod 64]
   else None)%N.

Fixpoint utf8 (s : pystr) : option (list N) :=
  match s with
  | [] => Some []
  | c :: s' =>
      match utf8_cp c, utf8 s' with
      | Some bs, Some rest => Some (bs ++ rest)
      | _, _ => None
      end
  end.

(** The bytes that are never quoted: ASCII letters, digits and [_.-~]. *)
Definition always_safe (b : N) : bool :=
  ((65 <=? b) && (b <=? 90) || (97 <=? b) && (b <=? 122) ||
   (48 <=? b) && (b <=? 57) ||
   (b =? 95) || (b =? 46) || (b =? 45) || (b =? 126))%N.

Definition hex_digit (d : N) : N :=
  (if d <? 10 then 48 + d else 55 + d)%N.

(** ['%{:02X}'.format(b)]. *)
Definition percent (b : N) : pystr :=
  [37%N; hex_digit (b / 16); hex_digit (b mod 16)].

Definition quote_byte (b : N) : pystr :=
  if always_safe b then [b] else percent b.

Definition quote (s : pystr) : option pystr :=
  match utf8 s with
  | Some bs => Some (flat_map quote_byte bs)
  | None => None
  end.

(** [quote_plus(s)]: as [quote], with a space sent as [+]. *)
Definition quote_plus_byte (b : N) : pystr :=
  if (b =? 32)%N then [43%N] else quote_byte b.

Definition quote_plus (s : pystr) : option pystr :=
  match utf8 s with
  | Some bs => Some (flat_map quote_plus_byte bs)
  | None => None
  end.

End Quote.

(** ** JSON values, as [json.loads] and [Response.json] build them *)

Inductive json :=
| JNull
| JBool (b : bool)
| JNum (q : Q)
| JStr (s : pystr)
| JList (l : list json)
| JDict (d : list (pystr * json)).

(** Python truthiness of a decoded JSON value: [None], [False], zero and
    the empty string, list and dict are falsy. *)
Definition truthy (j : json) : bool :=
  match j with
  | JNull => false
  | JBool b => b
  | JNum q => negb (Qeq_bool q 0)
  | JStr s => negb (bool_decide (s = []))
  | JList l => match l with [] => false | _ => true end
  | JDict d => match d with [] => false | _ => true end
  end.

(** ** Python dicts with string keys

    A [dict] keeps its keys in insertion order, and the client iterates
    over it ([values()], [items()]), so a dict is the list of its items in
    that order.  Keys are unique in a Python dict; [set] keeps them so. *)
Module Dict.
Section Dict.
Context {V : Type}.

Definition t := list (pystr * V).

(** [d.get(k)]. *)
Fixpoint get (k : pystr) (d : t) : option V :=
  match d with
  | [] => None
  | (k', v) :: d' => if bool_decide (k = k') then Some v else get k d'
  end.

(** [d[k] = v]: an existing key keeps its position. *)
Fixpoint set (k : pystr) (v : V) (d : t) : t :=
  match d with
  | [] => [(k, v)]
  | (k', v') :: d' =>
      if bool_decide (k = k') then (k', v) :: d' else (k', v') :: set k v d'
  end.

(** [d.update(e)]. *)
Definition update (d e : t) : t :=
  fold_left (fun acc kv => set (fst kv) (snd kv) acc) e d.

Definition keys (d : t) : list pystr := List.map fst d.
Definition values (d : t) : list V := List.map snd d.

(** [k in d]. *)
Definition contains (k : pystr) (d : t) : bool :=
  match get k d with Some _ => true | None => false end.

(** The invariant of a Python dict. *)
Definition wf (d : t) : Prop := NoDup (keys d).
End Dict.
Arguments t : clear implicits.
End Dict.

(** ** Exceptions *)

(** [requests.ConnectionError] and [requests.Timeout], the two classes
    [_request] catches. *)
Inductive net_error :=
| ConnectionError (detail : pystr)
| Timeout (detail : pystr).

(** [@dataclass class Operation]. *)
Record Operation := mkOperation {
  method : pystr;
  path : pystr;
  operation_id : pystr
}.

(** [LegalAPIError], one constructor per [raise LegalAPIError(...)] of the
    module, carrying what the message is formatted from and the [status]
    and [payload] attributes where they are passed. *)
Inductive api_error :=
| UnknownOperationId (op_id : pystr)
| NoMatchingOperation (keywords : list pystr) (tips : list Operation)
| HttpError (status : Z) (url : pystr) (text500 : pystr) (payload : json)
| NetworkError (url : pystr) (e : net_error)
| RequestFailedAfterRetries (last_err : option net_error)
| SchemaIsYaml
| SchemaLoadFailed (json_url yaml_url : pystr)
| NoOperationsFound.

(** [LegalAPIError.status]. *)
Definition error_status (e : api_error) : option Z :=
  match e with
  | HttpError status _ _ _ => Some status
  | _ => None
  end.

(** [LegalAPIError.payload]. *)
Definition error_payload (e : api_error) : option json :=
  match e with
  | HttpError _ _ _ payload => Some payload
  | _ => None
  end.

(** The exceptions that can travel through the client.  [IllTyped] marks
    a run that leaves the annotated types of the module (a non-string key
    in [dict[str, Operation]]); the model follows such a run no further. *)
Inductive exn :=
| LegalAPIError (e : api_error)
| NetError (e : net_error)
| JSONDecodeError
| AttributeError
| TypeError
| ValueError
| UnicodeEncodeError
| OtherException (detail : pystr)
| IllTyped.

Inductive result (A : Type) :=
| Return (a : A)
| Raise (e : exn).
Arguments Return {A} a.
Arguments Raise {A} e.

(** ** The transport: [requests.Session] against a scripted server *)

Definition header_dict := Dict.t pystr.
Definition file_dict := Dict.t (list N).

(** The keyword arguments of [Session.request]. *)
Record request := mkRequest {
  rq_method : pystr;
  rq_url : pystr;
  rq_timeout : Z;
  rq_json : option json;
  rq_data : option json;
  rq_files : option file_dict;
  rq_headers : option header_dict
}.

(** What the client reads of a [requests.Response]: [status_code],
    [headers.get("Content-Type", "")], [text], [content] and the outcome of
    [json()] ([None] when it raises). *)
Record response := mkResponse {
  status_code : Z;
  content_type : pystr;
  text : pystr;
  content : list N;
  resp_json : option json
}.

(** A request ends in a response, in one of the two exceptions the client
    catches, or in some other exception of the transport. *)
Inductive outcome :=
| Responds (r : response)
| Fails (e : net_error)
| Crashes (detail : pystr).

(** The server, seen from the client: what the [n]-th request (counting
    from 0) comes back with. *)
Definition server := nat -> request -> outcome.

Inductive event :=
| Requested (rq : request)
| Slept (seconds : Q).

Definition is_request (ev : event) : bool :=
  match ev with Requested _ => true | Slept _ => false end.

(** The log of what the process did, oldest first. *)
Definition log := list event.

Definition requests_in (l : log) : nat :=
  length (List.filter is_request l).

(** Computations of the client: they read and extend the log, and return
    or raise. *)
Definition M (A : Type) : Type := log -> result A * log.

Definition ret {A} (a : A) : M A := fun l => (Return a, l).
Definition raise {A} (e : exn) : M A := fun l => (Raise e, l).

Definition bind {A B} (m : M A) (k : A -> M B) : M B :=
  fun l =>
    match m l with
    | (Return a, l') => k a l'
    | (Raise e, l') => (Raise e, l')
    end.

Notation "'let*' x := m 'in' k" := (bind m (fun x => k))
  (at level 10, x name, m at level 100, k at level 200).
Notation "m ;;; k" := (bind m (fun _ => k))
  (at level 100, k at level 200, right associativity).

(** [try: body except <classes>: handler]; [handler e] is [None] when the
    [except] clause does not match [e]. *)
Definition try_except {A} (body : M A) (handler : exn -> option (M A)) : M A :=
  fun l =>
    match body l with
    | (Return a, l') => (Return a, l')
    | (Raise e, l') =>
        match handler e with
        | Some h => h l'
        | None => (Raise e, l')
        end
    end.

(** A pure step that can raise. *)
Definition lift {A} (r : result A) : M A := fun l => (r, l).

(** [time.sleep(seconds)]; a negative argument is a [ValueError]. *)
Definition sleep (seconds : Q) : M unit :=
  fun l =>
    if Qle_bool 0 seconds then (Return tt, l ++ [Slept seconds])
    else (Raise ValueError, l).

(** [session.request] called with the keyword arguments [rq], against
    the server [srv].  The call is logged whatever comes of it. *)
Definition session_request (srv : server) (rq : request) : M response :=
  fun l =>
    match srv (requests_in l) rq with
    | Responds r => (Return r, l ++ [Requested rq])
    | Fails e => (Raise (NetError e), l ++ [Requested rq])
    | Crashes detail => (Raise (OtherException detail), l ++ [Requested rq])
    end.

(** ** [urllib.parse.urlencode(query, doseq=True)] *)

(** A query value by its [str()] image: a scalar, or a sequence whose
    elements are sent under the same key. *)
Inductive qval :=
| QScalar (s : pystr)
| QSeq (l : list pystr).

Definition query_dict := Dict.t qval.

Fixpoint join (sep : pystr) (l : list pystr) : pystr :=
  match l with
  | [] => []
  | [s] => s
  | s :: l' => s ++ sep ++ join sep l'
  end.

Fixpoint all_some {A} (l : list (option A)) : option (list A) :=
  match l with
  | [] => Some []
  | Some a :: l' => option_map (cons a) (all_some l')
  | None :: _ => None
  end.

Definition urlencode_pair (k : pystr) (v : pystr) : option pystr :=
  match Quote.quote_plus k, Quote.quote_plus v with
  | Some k', Some v' => Some (k' ++ lit "=" ++ v')
  | _, _ => None
  end.

Definition urlencode_item (kv : pystr * qval) : list (option pystr) :=
  match snd kv with
  | QScalar v => [urlencode_pair (fst kv) v]
  | QSeq vs => List.map (urlencode_pair (fst kv)) vs
  end.

Definition urlencode (q : query_dict) : option pystr :=
  option_map (join (lit "&")) (all_some (flat_map urlencode_item q)).

(** ** [sorted(xs, key=...)] and [list.sort(key=...)]

    Python's sort is stable: among items with equal keys the earlier one
    stays first.  Insertion from the right, placing an item before the
    first item whose key is not smaller, has that property. *)
Section SortBy.
Context {A K : Type} (key : A -> K) (le : K -> K -> bool).

Fixpoint insert_by (x : A) (l : list A) : list A :=
  match l with
  | [] => [x]
  | y :: l' => if le (key x) (key y) then x :: l else y :: insert_by x l'
  end.

Fixpoint sort_by (l : list A) : list A :=
  match l with
  | [] => []
  | x :: l' => insert_by x (sort_by l')
  end.
End SortBy.

(** The order of the tuples [(len(id), id)]. *)
Definition key_leb (a b : nat * pystr) : bool :=
  (fst a <? fst b)%nat || ((fst a =? fst b)%nat && PyStr.leb (snd a) (snd b)).

(** * [class LegalAPI] *)

Definition catalog := Dict.t Operation.

(** The attributes of a constructed client. *)
Record client := mkClient {
  base_url : pystr;
  timeout : Z;
  retries : Z;
  backoff : Q;
  session_headers : header_dict;
  _schema : json;
  _operations : catalog
}.

(** What a call returns: the decoded JSON, or the raw [bytes]. *)
Inductive value :=
| VJson (j : json)
| VBytes (b : list N).

(** One turn of the retry loop either leaves the function or goes on to
    the next attempt ([continue]) with the current [last_err]. *)
Inductive turn :=
| Done (v : value)
| Continue (last_err : option net_error).

Section LegalAPI.
(** [str.lower] and [str.upper] (the Unicode tables are the
    interpreter's), [json.loads] ([None] when it raises
    [JSONDecodeError]) and the server the session talks to. *)
Variables (str_lower str_upper : pystr -> pystr).
Variable json_loads : pystr -> option json.
Variable srv : server.

(** [f"{op.operation_id} {op.path}".lower()] *)
Definition haystack (op : Operation) : pystr :=
  str_lower (operation_id op ++ lit " " ++ path op).

(** *** Public utilities *)

Definition list_endpoints (self : client) : list pystr :=
  sort_by (fun k => k) PyStr.leb (Dict.keys (_operations self)).

Definition efrsb_hints : list pystr :=
  [lit "efrsb"; lit "bankrupt"; lit "bankruptcy"; lit "debtor";
   lit "notice"; lit "case"; lit "insolv"].

Definition list_efrsb_methods (self : client) : list Operation :=
  List.filter
    (fun op => existsb (fun k => PyStr.contains k (haystack op)) efrsb_hints)
    (Dict.values (_operations self)).

(** *** Internal methods *)

Definition nonempty (k : pystr) : bool :=
  match k with [] => false | _ :: _ => true end.

Definition matches_all (keywords : list pystr) (op : Operation) : bool :=
  forallb (fun k => PyStr.contains (str_lower k) (haystack op))
          (List.filter nonempty keywords).

Definition matches_any (keywords : list pystr) (op : Operation) : bool :=
  existsb (fun k => PyStr.contains (str_lower k) (haystack op))
          (List.filter nonempty keywords).

Definition op_key (o : Operation) : nat * pystr :=
  (length (operation_id o), operation_id o).

Definition _find_op (self : client) (keywords : list pystr) : result Operation :=
  let candidates :=
    List.filter (matches_all keywords) (Dict.values (_operations self)) in
  match sort_by op_key key_leb candidates with
  | first :: _ => Return first
  | [] =>
      match List.find (matches_any keywords) (Dict.values (_operations self)) with
      | Some op => Return op
      | None =>
          Raise (LegalAPIError
                   (NoMatchingOperation keywords (list_efrsb_methods self)))
      end
  end.

(** [path_params] holds the [str()] images of its keys and values. *)
Fixpoint substitute (url : pystr) (items : list (pystr * pystr)) : result pystr :=
  match items with
  | [] => Return url
  | (k, v) :: items' =>
      match Quote.quote v with
      | Some qv =>
          substitute (PyStr.replace (lit "{" ++ k ++ lit "}") qv url) items'
      | None => Raise UnicodeEncodeError
      end
  end.

Definition _build_url (self : client) (path_tpl : pystr)
    (path_params : Dict.t pystr) : result pystr :=
  substitute (base_url self ++ path_tpl) path_params.

Definition _safe_json (resp : response) : json :=
  match resp_json resp with
  | Some j => j
  | None => JDict [(lit "text", JStr (text resp))]
  end.

(** [not files] and [not query]: [None] and the empty dict are falsy. *)
Definition present {V} (d : option (Dict.t V)) : bool :=
  match d with
  | Some (_ :: _) => true
  | _ => false
  end.

Definition send_json (body : option json) (files : option file_dict) : bool :=
  match body with
  | Some _ => negb (present files)
  | None => false
  end.

(** The keyword arguments of the [self._session.request] call. *)
Definition request_kwargs (self : client) (method url : pystr)
    (query : option query_dict) (body : option json) (files : option file_dict)
    (hdrs : header_dict) : result request :=
  let kw full_url :=
    {| rq_method := str_upper method;
       rq_url := full_url;
       rq_timeout := timeout self;
       rq_json := if send_json body files then body else None;
       rq_data := if send_json body files then None else body;
       rq_files := files;
       rq_headers := Some hdrs |} in
  if present query then
    match urlencode (default [] query) with
    | Some qs => Return (kw (url ++ lit "?" ++ qs))
    | None => Raise UnicodeEncodeError
    end
  else Return (kw url).

Definition is_2xx (s : Z) : bool := (200 <=? s)%Z && (s <? 300)%Z.
Definition is_5xx (s : Z) : bool := (500 <=? s)%Z && (s <? 600)%Z.

(** The body of the [for attempt in range(...)] loop. *)
Definition attempt_once (self : client) (method url : pystr)
    (query : option query_dict) (body : option json) (files : option file_dict)
    (hdrs : header_dict) (attempt : Z) (last_err : option net_error) : M turn :=
  try_except
    (let* rq := lift (request_kwargs self method url query body files hdrs) in
     let* resp := session_request srv rq in
     if is_2xx (status_code resp) then
       if PyStr.contains (lit "application/json") (content_type resp) then
         match resp_json resp with
         | Some j => ret (Done (VJson j))
         | None => raise JSONDecodeError
         end
       else ret (Done (VBytes (content resp)))
     else if is_5xx (status_code resp) && (attempt <=? retries self)%Z then
       sleep (backoff self * inject_Z attempt) ;;;
       ret (Continue last_err)
     else
       raise (LegalAPIError
                (HttpError (status_code resp) url (take 500 (text resp))
                           (_safe_json resp))))
    (fun e =>
       match e with
       | NetError ne =>
           Some (if (attempt <=? retries self)%Z then
                   sleep (backoff self * inject_Z attempt) ;;;
                   ret (Continue (Some ne))
                 else raise (LegalAPIError (NetworkError url ne)))
       | _ => None
       end).

(** The loop over [range(1, retries + 2)], [n] turns being left, and
    the statement after it. *)
Fixpoint attempts (self : client) (method url : pystr)
    (query : option query_dict) (body : option json) (files : option file_dict)
    (hdrs : header_dict) (n : nat) (attempt : Z) (last_err : option net_error)
    : M value :=
  match n with
  | O => raise (LegalAPIError (RequestFailedAfterRetries last_err))
  | S n' =>
      let* t :=
        attempt_once self method url query body files hdrs attempt last_err in
      match t with
      | Done v => ret v
      | Continue last_err' =>
          attempts self method url query body files hdrs n' (attempt + 1) last_err'
      end
  end.

(** [hdrs = dict(self._session.headers)], updated with [headers] when
    that is truthy. *)
Definition merged_headers (self : client) (hdrs_arg : option header_dict)
    : header_dict :=
  if present hdrs_arg
  then Dict.update (session_headers self) (default [] hdrs_arg)
  else session_headers self.

Definition _request (self : client) (method url : pystr)
    (query : option query_dict) (body : option json) (files : option file_dict)
    (hdrs_arg : option header_dict) : M value :=
  attempts self method url query body files (merged_headers self hdrs_arg)
           (Z.to_nat (retries self + 1)) 1 None.

(** The keyword arguments of [Session.get(url, timeout=..., headers=...)]. *)
Definition get_kwargs (self : client) (url : pystr)
    (hdrs : option header_dict) : request :=
  {| rq_method := lit "GET";
     rq_url := url;
     rq_timeout := timeout self;
     rq_json := None;
     rq_data := None;
     rq_files := None;
     rq_headers := hdrs |}.

(** [except Exception: pass] catches every exception of the model. *)
Definition except_Exception_pass {A} (e : exn) : option (M (option A)) :=
  Some (ret None).

(** Each [try] block of the loader yields [Some doc] when it executes
    its [return], and [None] when control falls out of the block. *)
Definition _load_openapi_schema (self : client) : M json :=
  let json_url := base_url self ++ lit "/openapi.json" in
  let yaml_url := base_url self ++ lit "/openapi.yaml" in
  let* first :=
    try_except
      (let* r := session_request srv (get_kwargs self json_url None) in
       if (status_code r =? 200)%Z then
         match resp_json r with
         | Some doc => ret (Some doc)
         | None => raise JSONDecodeError
         end
       else ret None)
      except_Exception_pass in
  match first with
  | Some doc => ret doc
  | None =>
      let* second :=
        try_except
          (let* r :=
             session_request srv
               (get_kwargs self yaml_url
                  (Some [(lit "Accept", lit "application/yaml, */*")])) in
           if (status_code r =? 200)%Z then
             try_except
               (match json_loads (text r) with
                | Some doc => ret (Some doc)
                | None => raise JSONDecodeError
                end)
               (fun e =>
                  match e with
                  | JSONDecodeError => Some (raise (LegalAPIError SchemaIsYaml))
                  | _ => None
                  end)
           else ret None)
          except_Exception_pass in
      match second with
      | Some doc => ret doc
      | None => raise (LegalAPIError (SchemaLoadFailed json_url yaml_url))
      end
  end.

(** [x.items()], an [AttributeError] on anything but a dict. *)
Definition items_of (j : json) : result (Dict.t json) :=
  match j with
  | JDict d => Return d
  | _ => Raise AttributeError
  end.

(** [x or {}] *)
Definition or_empty (j : option json) : json :=
  match j with
  | Some v => if truthy v then v else JDict []
  | None => JDict []
  end.

(** The synthetic id, [METHOD_path]. *)
Definition synthetic_id (method path : pystr) : pystr :=
  str_lower method ++ lit "_" ++
  PyStr.replace (lit "}") []
    (PyStr.replace (lit "{") []
       (PyStr.replace (lit "/") (lit "_") (PyStr.strip (lit "/") path))).

(** The key under which an operation is stored.  A truthy [operationId]
    that is a list or a dict is unhashable; one that is a number or
    [true] would be a key that is not a [str]. *)
Definition op_id_of (method path : pystr) (spec : Dict.t json) : result pystr :=
  match Dict.get (lit "operationId") spec with
  | Some j =>
      if truthy j then
        match j with
        | JStr s => Return s
        | JList _ | JDict _ => Raise TypeError
        | _ => Raise IllTyped
        end
      else Return (synthetic_id method path)
  | None => Return (synthetic_id method path)
  end.

(** The inner loop, [for method, spec in (methods or {}).items()]. *)
Fixpoint add_methods (path : pystr) (methods : Dict.t json) (ops : catalog)
    : result catalog :=
  match methods with
  | [] => Return ops
  | (method, JDict spec) :: rest =>
      match op_id_of method path spec with
      | Return op_id =>
          add_methods path rest
            (Dict.set op_id (mkOperation (str_upper method) path op_id) ops)
      | Raise e => Raise e
      end
  | (_, _) :: rest => add_methods path rest ops
  end.

(** The outer loop, [for path, methods in paths.items()]. *)
Fixpoint add_paths (paths : Dict.t json) (ops : catalog) : result catalog :=
  match paths with
  | [] => Return ops
  | (path, methods) :: rest =>
      match items_of (or_empty (Some methods)) with
      | Return ms =>
          match add_methods path ms ops with
          | Return ops' => add_paths rest ops'
          | Raise e => Raise e
          end
      | Raise e => Raise e
      end
  end.

Definition _build_operations_index (schema : json) : result catalog :=
  match schema with
  | JDict top =>
      match items_of (or_empty (Dict.get (lit "paths") top)) with
      | Return paths =>
          match add_paths paths [] with
          | Return [] => Raise (LegalAPIError NoOperationsFound)
          | Return ops => Return ops
          | Raise e => Raise e
          end
      | Raise e => Raise e
      end
  | _ => Raise AttributeError
  end.

(** *** Construction *)

Definition DEFAULT_TIMEOUT : Z := 30.
Definition DEFAULT_RETRIES : Z := 3.
Definition DEFAULT_BACKOFF : Q := 8 # 10.

(** [requests.utils.default_headers()], the headers of a new session. *)
Variable default_headers : header_dict.

Definition __init__ (token base_url_arg : pystr) (timeout_arg retries_arg : Z)
    (backoff_arg : Q) : M client :=
  let self :=
    {| base_url := PyStr.rstrip (lit "/") base_url_arg;
       timeout := timeout_arg;
       retries := retries_arg;
       backoff := backoff_arg;
       session_headers :=
         Dict.update default_headers
           [(lit "Authorization", lit "Bearer " ++ token);
            (lit "Accept", lit "application/json, */*");
            (lit "User-Agent", lit "LegalAPI-Client/1.0")];
       _schema := JNull;
       _operations := [] |} in
  let* schema := _load_openapi_schema self in
  let* ops := lift (_build_operations_index schema) in
  ret {| base_url := base_url self;
         timeout := timeout self;
         retries := retries self;
         backoff := backoff self;
         session_headers := session_headers self;
         _schema := schema;
         _operations := ops |}.

(** *** Universal calls *)

(** The keyword arguments of [call]. *)
Record call_args := mkArgs {
  path_params : option (Dict.t pystr);
  query : option query_dict;
  body : option json;
  files : option file_dict;
  headers : option header_dict
}.

Definition call (self : client) (op_id : pystr) (args : call_args) : M value :=
  match Dict.get op_id (_operations self) with
  | None => raise (LegalAPIError (UnknownOperationId op_id))
  | Some op =>
      let* url := lift (_build_url self (path op) (default [] (path_params args))) in
      _request self (method op) url (query args) (body args) (files args)
               (headers args)
  end.

(** The method [__getattr__(name)].  Python calls it for [client.name]
    only after ordinary lookup has found no attribute of that name; see
    [getattr] below. *)
Definition __getattr__ (self : client) (name : pystr)
    : result (call_args -> M value) :=
  if Dict.contains name (_operations self)
  then Return (fun args => call self name args)
  else Raise AttributeError.

(** The names ordinary lookup finds on a client: the attributes that
    [__init__] assigns, and the names the class body binds. *)
Definition instance_attributes : list pystr :=
  [lit "base_url"; lit "timeout"; lit "retries"; lit "backoff";
   lit "_session"; lit "_schema"; lit "_operations"].

Definition class_attributes : list pystr :=
  [lit "__init__"; lit "list_endpoints"; lit "list_efrsb_methods";
   lit "call"; lit "__getattr__"; lit "efrsb_search"; lit "efrsb_get_debtor";
   lit "efrsb_get_case"; lit "efrsb_list_notices"; lit "_find_op";
   lit "_build_url"; lit "_request"; lit "_load_openapi_schema";
   lit "_build_operations_index"; lit "_safe_json"].

(** The names every instance of a class has ([__class__], [__dict__],
    [__doc__], ...): the interpreter's. *)
Variable object_attributes : pystr -> bool.

(** What [client.name] evaluates to: an attribute found by ordinary
    lookup, whose value is not modelled, or the caller that
    [__getattr__] makes. *)
Inductive attribute :=
| Ordinary
| Caller (f : call_args -> M value).

(** [client.name], that is [getattr(client, name)]: ordinary lookup
    first, [__getattr__] when that finds nothing. *)
Definition getattr (self : client) (name : pystr) : result attribute :=
  if bool_decide (name ∈ instance_attributes ++ class_attributes)
     || object_attributes name
  then Return Ordinary
  else match __getattr__ self name with
       | Return f => Return (Caller f)
       | Raise e => Raise e
       end.

(** *** The EFRSB convenience methods *)

Definition no_args : call_args :=
  {| path_params := None; query := None; body := None;
     files := None; headers := None |}.

Definition efrsb_search (self : client) (q : query_dict) : M value :=
  let* op := lift (_find_op self [lit "efrsb"; lit "search"; lit "find";
                                  lit "query"; lit "lookup"]) in
  call self (operation_id op)
       {| path_params := None; query := Some q; body := None;
          files := None; headers := None |}.

Definition efrsb_get_debtor (self : client) (q : option query_dict)
    (pp : option (Dict.t pystr)) : M value :=
  let* op := lift (_find_op self [lit "efrsb"; lit "debtor"; lit "subject";
                                  lit "person"]) in
  call self (operation_id op)
       {| path_params := pp; query := q; body := None;
          files := None; headers := None |}.

Definition efrsb_get_case (self : client) (q : option query_dict)
    (pp : option (Dict.t pystr)) : M value :=
  let* op := lift (_find_op self [lit "efrsb"; lit "case"; lit "proceeding";
                                  lit "bankruptcycase"]) in
  call self (operation_id op)
       {| path_params := pp; query := q; body := None;
          files := None; headers := None |}.

Definition efrsb_list_notices (self : client) (q : query_dict) : M value :=
  let* op := lift (_find_op self [lit "efrsb"; lit "notice"; lit "notices";
                                  lit "messages"; lit "publications"]) in
  call self (operation_id op)
       {| path_params := None; query := Some q; body := None;
          files := None; headers := None |}.

End LegalAPI.


(** * [main.py] *)

Definition TOKEN : pystr := lit "4123saedfasedfsadf4324234f223ddf23".

(** The script builds a client with the default settings and prints the
    first 20 ids of the listing; the printed list is what it returns
    here. *)
Definition main (str_lower str_upper : pystr -> pystr)
    (json_loads : pystr -> option json) (srv : server)
    (default_headers : header_dict) : M (list pystr) :=
  let* api := __init__ str_lower str_upper json_loads srv default_headers
                TOKEN (lit "https://legal-api.sirotinsky.com")
                DEFAULT_TIMEOUT DEFAULT_RETRIES DEFAULT_BACKOFF in
  ret (take 20 (list_endpoints api)).

(** * The vocabulary of the properties *)

(** [needle] occurs in [hay]. *)
Definition substring (needle hay : pystr) : Prop :=
  exists pre post, hay = pre ++ needle ++ post.

(** The tuple order, spelled out: shorter first, then the earlier id. *)
Definition key_le (a b : nat * pystr) : Prop :=
  (fst a < fst b)%nat \/
  (fst a = fst b /\ PyStr.compare (snd a) (snd b) <> Gt).

(** The order [sort_by] sorts by: the key of [x] is not above that of [y]. *)
Definition key_rel {A K : Type} (key : A -> K) (le : K -> K -> bool)
    (x y : A) : Prop :=
  le (key x) (key y) = true.

(** [op] matches all keywords: its lower-cased [id + " " + path] contains
    every non-empty keyword, lower-cased, as a substring. *)
Definition full_match (str_lower : pystr -> pystr) (keywords : list pystr)
    (op : Operation) : Prop :=
  forall k, k ∈ keywords -> k <> [] ->
    substring (str_lower k)
              (str_lower (operation_id op ++ lit " " ++ path op)).

(** [r] comes first under [(len(id), id)]. *)
Definition before (r op : Operation) : Prop :=
  (length (operation_id r) < length (operation_id op))%nat \/
  (length (operation_id r) = length (operation_id op) /\
   PyStr.compare (operation_id r) (operation_id op) <> Gt).

(** [a <= b] on [str]. *)
Definition str_le (a b : pystr) : Prop := PyStr.leb a b = true.

(** A failure the loop retries: a 5xx status, or one of the two caught
    exceptions. *)
Definition transient (o : outcome) : bool :=
  match o with
  | Responds r => is_5xx (status_code r)
  | Fails _ => true
  | Crashes _ => false
  end.

(** What [_request] raises when an attempt's outcome ends the loop. *)
Definition attempt_error (url : pystr) (o : outcome) : exn :=
  match o with
  | Responds r =>
      LegalAPIError
        (HttpError (status_code r) url (take 500 (text r)) (_safe_json r))
  | Fails ne => LegalAPIError (NetworkError url ne)
  | Crashes detail => OtherException detail
  end.

(** What [_request] returns on a 2xx response; [None] when [resp.json()]
    raises. *)
Definition response_value (r : response) : option value :=
  if PyStr.contains (lit "application/json") (content_type r)
  then option_map VJson (resp_json r)
  else Some (VBytes (content r)).

(** The primary location fails: an exception, a status other than 200, or
    a body [Response.json] cannot decode. *)
Definition primary_fails (o : outcome) : Prop :=
  match o with
  | Responds r => status_code r <> 200%Z \/ resp_json r = None
  | Fails _ | Crashes _ => True
  end.

(** An operation entry of a schema document: a path, a method under it,
    and the method's specification, which is a dict. *)
Definition entry : Type := pystr * pystr * Dict.t json.

Definition methods_of (j : json) : Dict.t json :=
  match j with JDict ms => ms | _ => [] end.

Definition method_entries (path : pystr) (ms : Dict.t json) : list entry :=
  flat_map (fun me => match snd me with
                      | JDict spec => [(path, fst me, spec)]
                      | _ => []
                      end) ms.

Definition operation_entries (paths : Dict.t json) : list entry :=
  flat_map (fun pm => method_entries (fst pm) (methods_of (snd pm))) paths.

(** The value under ["paths"], when it is a dict. *)
Definition schema_paths (schema : json) : Dict.t json :=
  match schema with
  | JDict top =>
      match Dict.get (lit "paths") top with
      | Some (JDict ps) => ps
      | _ => []
      end
  | _ => []
  end.

(** The id of an entry: the declared [operationId] when it is a non-empty
    string, the synthetic id otherwise. *)
Definition entry_id (str_lower : pystr -> pystr) (e : entry) : pystr :=
  let '(path, method, spec) := e in
  match Dict.get (lit "operationId") spec with
  | Some (JStr (c :: s)) => c :: s
  | _ => synthetic_id str_lower method path
  end.

(** The shape of a schema document: a dict whose ["paths"], when it holds
    anything, is a dict from paths to dicts (or to nothing) of methods,
    with unique keys as in any dict, and whose declared [operationId]s
    are strings. *)
Definition id_ok (v : json) : bool :=
  match v with
  | JDict spec =>
      match Dict.get (lit "operationId") spec with
      | Some (JStr _) => true
      | Some j => negb (truthy j)
      | None => true
      end
  | _ => true
  end.

Definition methods_ok (methods : json) : bool :=
  match methods with
  | JDict ms =>
      bool_decide (NoDup (Dict.keys ms)) && forallb (fun me => id_ok (snd me)) ms
  | j => negb (truthy j)
  end.

Definition paths_ok (v : option json) : bool :=
  match v with
  | Some (JDict ps) =>
      bool_decide (NoDup (Dict.keys ps)) &&
      forallb (fun pm => methods_ok (snd pm)) ps
  | Some j => negb (truthy j)
  | None => true
  end.

Definition schema_shaped (schema : json) : bool :=
  match schema with
  | JDict top => paths_ok (Dict.get (lit "paths") top)
  | _ => false
  end.

(** What the loop body does with one entry. *)
Definition store (str_lower str_upper : pystr -> pystr) (ops : catalog)
    (e : entry) : catalog :=
  let '(path, method, _) := e in
  Dict.set (entry_id str_lower e)
           (mkOperation (str_upper method) path (entry_id str_lower e)) ops.

(** The log of [k] failed attempts numbered from [first], each followed
    by its back-off sleep. *)
Fixpoint backoff_schedule (rq : request) (b : Q) (first : Z) (k : nat) : log :=
  match k with
  | O => []
  | S k' =>
      Requested rq :: Slept (b * inject_Z first)
        :: backoff_schedule rq b (first + 1) k'
  end.

(** [op] matches some keyword: its lower-cased [id + " " + path] contains
    a non-empty keyword, lower-cased. *)
Definition any_match (str_lower : pystr -> pystr) (keywords : list pystr)
    (op : Operation) : Prop :=
  exists k, k ∈ keywords /\ k <> [] /\
    substring (str_lower k)
              (str_lower (operation_id op ++ lit " " ++ path op)).

(** A catalog as the builder leaves it: unique keys, and every operation
    stored under its own [operation_id]. *)
Definition catalog_consistent (ops : catalog) : Prop :=
  Dict.wf ops /\ forall k op, (k, op) ∈ ops -> operation_id op = k.

(** The operation the builder stores for an entry. *)
Definition operation_of (str_lower str_upper : pystr -> pystr) (e : entry)
    : Operation :=
  let '(path, method, _) := e in
  mkOperation (str_upper method) path (entry_id str_lower e).

(** The last entry, in document order, whose id is [id]. *)
Fixpoint last_with_id (str_lower : pystr -> pystr) (id : pystr)
    (es : list entry) : option entry :=
  match es with
  | [] => None
  | e :: es' =>
      match last_with_id str_lower id es' with
      | Some e' => Some e'
      | None => if bool_decide (entry_id str_lower e = id) then Some e else None
      end
  end.

(** The hint words of [list_efrsb_methods] without ["bankruptcy"], which
    ["bankrupt"] covers. *)
Definition efrsb_hints_reduced : list pystr :=
  [lit "efrsb"; lit "bankrupt"; lit "debtor"; lit "notice"; lit "case";
   lit "insolv"].

(** The document the loader takes from the answer of the primary
    location, and from that of the secondary one; [None] when the answer
    is not a 200 response that decodes. *)
Definition primary_doc (o : outcome) : option json :=
  match o with
  | Responds r => if (status_code r =? 200)%Z then resp_json r else None
  | Fails _ | Crashes _ => None
  end.

Definition secondary_doc (json_loads : pystr -> option json) (o : outcome)
    : option json :=
  match o with
  | Responds r => if (status_code r =? 200)%Z then json_loads (text r) else None
  | Fails _ | Crashes _ => None
  end.

(** The two requests of the loader. *)
Definition json_request (self : client) : request :=
  get_kwargs self (base_url self ++ lit "/openapi.json") None.

Definition yaml_request (self : client) : request :=
  get_kwargs self (base_url self ++ lit "/openapi.yaml")
             (Some [(lit "Accept", lit "application/yaml, */*")]).

(** A path template cut into literal text and placeholders [{name}]. *)
Inductive piece :=
| Text (s : pystr)
| Placeholder (name : pystr).

Definition render_piece (p : piece) : pystr :=
  match p with
  | Text s => s
  | Placeholder k => lit "{" ++ k ++ lit "}"
  end.

Definition render (t : list piece) : pystr := flat_map render_piece t.

(** Neither [{] nor [}] occurs. *)
Definition brace_free (s : pystr) : Prop := (123%N ∉ s) /\ (125%N ∉ s).

(** The cut is the only reading of the template: an opening brace occurs
    nowhere but at the start of a placeholder, and no name holds a
    brace. *)
Definition template_wf (t : list piece) : Prop :=
  Forall (fun p => match p with
                   | Text s => 123%N ∉ s
                   | Placeholder k => brace_free k
                   end) t.

(** The mapping with every value percent-encoded, when every value can
    be. *)
Fixpoint quote_values (params : Dict.t pystr) : option (Dict.t pystr) :=
  match params with
  | [] => Some []
  | (k, v) :: params' =>
      match Quote.quote v, quote_values params' with
      | Some qv, Some quoted => Some ((k, qv) :: quoted)
      | _, _ => None
      end
  end.

(** What stands in the URL for a piece of the template, [quoted] being
    the encoded path parameters: the text itself, the encoded value of a
    placeholder that has one, the placeholder as written otherwise. *)
Definition fill (quoted : Dict.t pystr) (p : piece) : pystr :=
  match p with
  | Text s => s
  | Placeholder k =>
      match Dict.get k quoted with
      | Some qv => qv
      | None => lit "{" ++ k ++ lit "}"
      end
  end.

(** One substitution step on a piece: the placeholder [{k}] becomes the
    text [qv]. *)
Definition fill_one (k qv : pystr) (p : piece) : piece :=
  match p with
  | Text s => Text s
  | Placeholder k' => if bool_decide (k' = k) then Text qv else Placeholder k'
  end.

(** What of a piece is in the URL whatever the values are: nothing of a
    placeholder that has a value. *)
Definition kept (params : Dict.t pystr) (p : piece) : pystr :=
  match p with
  | Text s => s
  | Placeholder k =>
      if Dict.contains k params then [] else lit "{" ++ k ++ lit "}"
  end.

(** How often a character occurs in a string. *)
Definition occurrences (c : N) (s : pystr) : nat := count_occ N.eq_dec s c.

(** What [_request] appends to the URL for the query: nothing for a
    falsy one, [?] and the encoded pairs otherwise. *)
Definition query_suffix (q : option query_dict) : option pystr :=
  if present q
  then match urlencode (default [] q) with
       | Some qs => Some (lit "?" ++ qs)
       | None => None
       end
  else Some [].

(** * A concrete client and its servers *)

(** The catalog of the end-to-end scenario. *)
Definition demo_ops : catalog :=
  [(lit "searchEFRSBNotices",
    mkOperation (lit "GET") (lit "/efrsb/notices") (lit "searchEFRSBNotices"));
   (lit "getEFRSBDebtor",
    mkOperation (lit "GET") (lit "/efrsb/debtors/{id}") (lit "getEFRSBDebtor"))].

Definition demo_headers : header_dict :=
  [(lit "User-Agent", lit "LegalAPI-Client/1.0");
   (lit "Accept", lit "application/json, */*");
   (lit "Authorization", lit "Bearer 4123")].

Definition demo_client : client :=
  {| base_url := lit "https://legal-api.sirotinsky.com";
     timeout := DEFAULT_TIMEOUT;
     retries := DEFAULT_RETRIES;
     backoff := DEFAULT_BACKOFF;
     session_headers := demo_headers;
     _schema := JDict [];
     _operations := demo_ops |}.

(** The same client, its catalog filled in the other order. *)
Definition demo_client_swapped : client :=
  {| base_url := base_url demo_client;
     timeout := timeout demo_client;
     retries := retries demo_client;
     backoff := backoff demo_client;
     session_headers := session_headers demo_client;
     _schema := _schema demo_client;
     _operations := rev demo_ops |}.

(** The same client, without retries. *)
Definition demo_client_no_retry : client :=
  {| base_url := base_url demo_client;
     timeout := timeout demo_client;
     retries := 0;
     backoff := backoff demo_client;
     session_headers := session_headers demo_client;
     _schema := _schema demo_client;
     _operations := demo_ops |}.

Definition demo_ok : response :=
  {| status_code := 200;
     content_type := lit "application/json";
     text := lit "{}";
     content := lit "{}";
     resp_json := Some (JDict []) |}.

Definition demo_error (status : Z) : response :=
  {| status_code := status;
     content_type := lit "text/plain";
     text := lit "no";
     content := lit "no";
     resp_json := None |}.

Definition demo_yaml : response :=
  {| status_code := 200;
     content_type := lit "application/yaml";
     text := lit "openapi: 3.0.0";
     content := lit "openapi: 3.0.0";
     resp_json := None |}.

(** A stand-in for [json.loads] that knows the one document the demo
    server sends as JSON and rejects every other text. *)
Definition demo_json_loads (s : pystr) : option json :=
  if bool_decide (s = lit "{}") then Some (JDict []) else None.

(** A server that always answers alike, and one that follows a script. *)
Definition always (o : outcome) : server := fun _ _ => o.

Definition scripted (os : list outcome) (rest : outcome) : server :=
  fun n _ => nth n os rest.

Definition demo_notices_url : pystr :=
  lit "https://legal-api.sirotinsky.com/efrsb/notices".

Definition demo_request (url : pystr) : request :=
  {| rq_method := lit "GET";
     rq_url := url;
     rq_timeout := 30;
     rq_json := None;
     rq_data := None;
     rq_files := None;
     rq_headers := Some demo_headers |}.

(** [{"paths": {"/efrsb/notices": {"get": {"operationId":
    "searchEFRSBNotices"}}, "/efrsb/debtors/{id}": {"get": {},
    "parameters": []}}}] *)
Definition demo_schema : json :=
  JDict
    [(lit "openapi", JStr (lit "3.0.0"));
     (lit "paths",
      JDict
        [(lit "/efrsb/notices",
          JDict [(lit "get",
                  JDict [(lit "operationId", JStr (lit "searchEFRSBNotices"))])]);
         (lit "/efrsb/debtors/{id}",
          JDict [(lit "get", JDict []); (lit "parameters", JList [])])])].

Definition demo_files : file_dict := [(lit "file", lit "%PDF")].
Definition demo_body : json := JDict [(lit "a", JNum 1)].

(** A client whose [retries] is negative. *)
Definition demo_client_negative : client :=
  {| base_url := base_url demo_client;
     timeout := timeout demo_client;
     retries := -1;
     backoff := backoff demo_client;
     session_headers := session_headers demo_client;
     _schema := _schema demo_client;
     _operations := demo_ops |}.

(** The answer of a server that publishes [demo_schema]. *)
Definition demo_schema_response : response :=
  {| status_code := 200;
     content_type := lit "application/json";
     text := lit "(the schema)";
     content := lit "(the schema)";
     resp_json := Some demo_schema |}.

(** The headers of a fresh session. *)
Definition demo_default_headers : header_dict :=
  [(lit "User-Agent", lit "python-requests/2.31.0");
   (lit "Accept-Encoding", lit "gzip, deflate");
   (lit "Accept", lit "*/*");
   (lit "Connection", lit "keep-alive")].

(** The client [__init__] builds from that server with the token [t]. *)
Definition demo_built_client : client :=
  {| base_url := lit "https://legal-api.sirotinsky.com";
     timeout := DEFAULT_TIMEOUT;
     retries := DEFAULT_RETRIES;
     backoff := DEFAULT_BACKOFF;
     session_headers :=
       [(lit "User-Agent", lit "LegalAPI-Client/1.0");
        (lit "Accept-Encoding", lit "gzip, deflate");
        (lit "Accept", lit "application/json, */*");
        (lit "Connection", lit "keep-alive");
        (lit "Authorization", lit "Bearer t")];
     _schema := demo_schema;
     _operations :=
       [(lit "searchEFRSBNotices",
         mkOperation (lit "GET") (lit "/efrsb/notices") (lit "searchEFRSBNotices"));
        (lit "get_efrsb_debtors_id",
         mkOperation (lit "GET") (lit "/efrsb/debtors/{id}")
                     (lit "get_efrsb_debtors_id"))] |}.

(** [{"paths": {"/a": {"get": {"operationId": "x"}, "post":
    {"operationId": "x"}}, "/b": {"get": {"operationId": "y"}}}}] *)
Definition demo_colliding_schema : json :=
  JDict
    [(lit "paths",
      JDict
        [(lit "/a",
          JDict [(lit "get", JDict [(lit "operationId", JStr (lit "x"))]);
                 (lit "post", JDict [(lit "operationId", JStr (lit "x"))])]);
         (lit "/b",
          JDict [(lit "get", JDict [(lit "operationId", JStr (lit "y"))])])])].

(** A template with a repeated placeholder and one that gets no value,
    and path parameters in another order than the template's, one of them
    unused and one with reserved characters in its value. *)
Definition demo_template : list piece :=
  [Text (lit "/efrsb/"); Placeholder (lit "kind"); Text (lit "/");
   Placeholder (lit "id"); Text (lit "/"); Placeholder (lit "part");
   Text (lit "/"); Placeholder (lit "id")].

Definition demo_path_params : Dict.t pystr :=
  [(lit "id", lit "a/b?{x}"); (lit "inn", lit "7707"); (lit "kind", lit "debtors")].

Definition demo_quoted : Dict.t pystr :=
  [(lit "id", lit "a%2Fb%3F%7Bx%7D"); (lit "inn", lit "7707");
   (lit "kind", lit "debtors")].

(** * Properties *)

(** ** Strings *)

Lemma starts_with_spec p s :
  PyStr.starts_with p s = true <-> exists post, s = p ++ post.
Proof.
  revert s. induction p as [|x p IH]; intros s; simpl.
  - split; [intros _; by exists s | done].
  - destruct s as [|y s]; simpl.
    + split; [done | intros [post Hpost]; discriminate].
    + rewrite andb_true_iff, N.eqb_eq, IH. split.
      * intros [-> [post ->]]. by exists post.
      * intros [post Hpost]. injection Hpost as -> ->. eauto.
Qed.

Lemma contains_spec needle hay :
  PyStr.contains needle hay = true <-> substring needle hay.
Proof.
  unfold substring. induction hay as [|c hay IH].
  - simpl. rewrite orb_false_r, starts_with_spec. split.
    + intros [post Hpost]. by exists [], post.
    + intros (pre & post & Heq). symmetry in Heq.
      apply app_eq_nil in Heq as [-> Heq]. apply app_eq_nil in Heq as [-> ->].
      by exists [].
  - change (PyStr.contains needle (c :: hay))
      with (PyStr.starts_with needle (c :: hay) || PyStr.contains needle hay).
    rewrite orb_true_iff, starts_with_spec, IH. split.
    + intros [[post Hpost] | (pre & post & ->)].
      * by exists [], post.
      * by exists (c :: pre), post.
    + intros ([|c' pre] & post & Heq).
      * left. by exists post.
      * right. injection Heq as -> ->. eauto.
Qed.

Lemma compare_refl a : PyStr.compare a a = Eq.
Proof. induction a as [|x a IH]; simpl; [done|]. by rewrite N.compare_refl. Qed.

Lemma compare_eq a b : PyStr.compare a b = Eq -> a = b.
Proof.
  revert b. induction a as [|x a IH]; intros [|y b]; simpl; try done.
  destruct (N.compare_spec x y) as [->| |]; try done.
  intros H. f_equal. by apply IH.
Qed.

Lemma compare_antisym a b : PyStr.compare b a = CompOpp (PyStr.compare a b).
Proof.
  revert b. induction a as [|x a IH]; intros [|y b]; simpl; try done.
  rewrite (N.compare_antisym x y).
  destruct (N.compare x y); simpl; auto.
Qed.

Lemma compare_lt_trans a b c :
  PyStr.compare a b = Lt -> PyStr.compare b c = Lt -> PyStr.compare a c = Lt.
Proof.
  revert b c. induction a as [|x a IH]; intros [|y b] [|z c]; simpl; try done.
  destruct (N.compare_spec x y) as [->|Hxy|Hxy]; try done.
  - destruct (N.compare_spec y z) as [->|Hyz|Hyz]; try done. apply IH.
  - intros _. destruct (N.compare_spec y z) as [->|Hyz|Hyz]; try done.
    + intros _. by apply N.compare_lt_iff in Hxy as ->.
    + intros _. assert (x < z)%N as Hxz by lia.
      by apply N.compare_lt_iff in Hxz as ->.
Qed.

Lemma leb_total a b : PyStr.leb a b = true \/ PyStr.leb b a = true.
Proof.
  unfold PyStr.leb. rewrite (compare_antisym a b).
  destruct (PyStr.compare a b); simpl; auto.
Qed.

Lemma leb_trans a b c :
  PyStr.leb a b = true -> PyStr.leb b c = true -> PyStr.leb a c = true.
Proof.
  unfold PyStr.leb.
  destruct (PyStr.compare a b) eqn:Hab; try done;
    destruct (PyStr.compare b c) eqn:Hbc; try done; intros _ _.
  - apply compare_eq in Hab as ->. by rewrite Hbc.
  - apply compare_eq in Hab as ->. by rewrite Hbc.
  - apply compare_eq in Hbc as <-. by rewrite Hab.
  - by rewrite (compare_lt_trans a b c).
Qed.

Lemma leb_antisym a b :
  PyStr.leb a b = true -> PyStr.leb b a = true -> a = b.
Proof.
  unfold PyStr.leb. rewrite (compare_antisym a b).
  destruct (PyStr.compare a b) eqn:Hab; simpl; try done.
  intros _ _. by apply compare_eq.
Qed.

Lemma key_leb_spec a b : key_leb a b = true <-> key_le a b.
Proof.
  unfold key_leb, key_le, PyStr.leb.
  rewrite orb_true_iff, andb_true_iff, Nat.ltb_lt, Nat.eqb_eq.
  destruct (PyStr.compare (snd a) (snd b)); intuition congruence.
Qed.

Lemma key_leb_total a b : key_leb a b = true \/ key_leb b a = true.
Proof.
  rewrite !key_leb_spec. unfold key_le.
  destruct (lt_eq_lt_dec (fst a) (fst b)) as [[?|Heq]|?]; auto.
  destruct (leb_total (snd a) (snd b)) as [H|H]; unfold PyStr.leb in H.
  - left. right. split; [done|]. by destruct (PyStr.compare (snd a) (snd b)).
  - right. right. split; [done|]. by destruct (PyStr.compare (snd b) (snd a)).
Qed.

Lemma key_leb_trans a b c :
  key_leb a b = true -> key_leb b c = true -> key_leb a c = true.
Proof.
  rewrite !key_leb_spec. unfold key_le.
  intros [Hab|[Hab Hsab]] [Hbc|[Hbc Hsbc]]; try (left; lia).
  right. split; [congruence|].
  pose proof (leb_trans (snd a) (snd b) (snd c)) as Ht. unfold PyStr.leb in Ht.
  destruct (PyStr.compare (snd a) (snd b)); try done;
    destruct (PyStr.compare (snd b) (snd c)); try done;
    destruct (PyStr.compare (snd a) (snd c)); try done;
    by specialize (Ht eq_refl eq_refl).
Qed.

(** ** Sorting by key *)

Section SortByFacts.
Context {A K : Type} (key : A -> K) (le : K -> K -> bool).
Hypothesis le_total : forall a b, le a b = true \/ le b a = true.
Hypothesis le_trans : forall a b c, le a b = true -> le b c = true -> le a c = true.

#[local] Instance key_rel_trans : Transitive (key_rel key le).
Proof using le_trans. intros x y z. unfold key_rel. apply le_trans. Qed.

Lemma insert_by_Permutation x l : insert_by key le x l ≡ₚ x :: l.
Proof.
  induction l as [|y l IH]; simpl; [done|].
  destruct (le (key x) (key y)); [done|].
  rewrite IH. apply perm_swap.
Qed.

Lemma sort_by_Permutation l : sort_by key le l ≡ₚ l.
Proof.
  induction l as [|x l IH]; simpl; [done|].
  by rewrite insert_by_Permutation, IH.
Qed.

Lemma insert_by_HdRel x y l :
  (key_rel key le) y x -> HdRel (key_rel key le) y l -> HdRel (key_rel key le) y (insert_by key le x l).
Proof.
  intros Hyx Hhd. destruct l as [|z l]; simpl; [by constructor|].
  destruct (le (key x) (key z)); constructor; [done|].
  by inversion Hhd.
Qed.

Lemma insert_by_Sorted x l :
  Sorted (key_rel key le) l -> Sorted (key_rel key le) (insert_by key le x l).
Proof using le_total.
  induction l as [|y l IH]; simpl; intros Hs.
  - by repeat constructor.
  - destruct (le (key x) (key y)) eqn:Hxy.
    + constructor; [done|]. by constructor.
    + inversion Hs as [|? ? Hs' Hhd]; subst. constructor; [by apply IH|].
      apply insert_by_HdRel; [|done].
      unfold key_rel. destruct (le_total (key x) (key y)); congruence.
Qed.

Lemma sort_by_Sorted l : Sorted (key_rel key le) (sort_by key le l).
Proof using le_total.
  induction l as [|x l IH]; simpl; [constructor|]. by apply insert_by_Sorted.
Qed.

Lemma sort_by_nil l : sort_by key le l = [] -> l = [].
Proof.
  intros H. apply Permutation_nil. by rewrite <- (sort_by_Permutation l), H.
Qed.

(** The first item of the sorted list is an item of the list whose key
    is least. *)
Lemma sort_by_head x rest l :
  sort_by key le l = x :: rest ->
  x ∈ l /\ forall y, y ∈ l -> (key_rel key le) x y.
Proof using le_total le_trans.
  intros Hsort.
  pose proof (sort_by_Permutation l) as Hperm.
  pose proof (sort_by_Sorted l) as Hsorted.
  rewrite Hsort in Hperm, Hsorted. split.
  - rewrite <- Hperm. left.
  - intros y Hy. rewrite <- Hperm in Hy.
    apply Sorted_StronglySorted in Hsorted; [|apply _].
    apply elem_of_cons in Hy as [->|Hy].
    + unfold key_rel. destruct (le_total (key x) (key x)); done.
    + apply StronglySorted_inv in Hsorted as [_ Hall].
      rewrite Forall_forall in Hall. by apply Hall.
Qed.

End SortByFacts.

(** ** The keyword resolver, [_find_op] *)

Section Resolver.
Variable str_lower : pystr -> pystr.

Lemma nonempty_spec k : nonempty k = true <-> k <> [].
Proof. by destruct k. Qed.

Lemma matches_all_spec keywords op :
  matches_all str_lower keywords op = true <-> full_match str_lower keywords op.
Proof.
  unfold matches_all, full_match. rewrite List.forallb_forall. split.
  - intros H k Hk Hne. apply contains_spec, H, filter_In.
    split; [by apply list_elem_of_In | by apply nonempty_spec].
  - intros H k [Hk Hne]%filter_In. apply contains_spec, H.
    + by apply list_elem_of_In.
    + by apply nonempty_spec.
Qed.

Lemma candidates_spec keywords (ops : list Operation) op :
  op ∈ List.filter (matches_all str_lower keywords) ops <->
  op ∈ ops /\ full_match str_lower keywords op.
Proof.
  by rewrite !list_elem_of_In, filter_In, matches_all_spec.
Qed.

(** When the strict pass finds a candidate, the resolver returns the
    candidate that comes first. *)
Lemma find_op_strict self keywords :
  List.filter (matches_all str_lower keywords)
              (Dict.values (_operations self)) <> [] ->
  exists r,
    _find_op str_lower self keywords = Return r /\
    r ∈ Dict.values (_operations self) /\
    full_match str_lower keywords r /\
    forall op, op ∈ Dict.values (_operations self) ->
      full_match str_lower keywords op -> before r op.
Proof.
  intros Hne. unfold _find_op.
  destruct (sort_by op_key key_leb _) as [|r rest] eqn:Hsort.
  - by apply sort_by_nil in Hsort.
  - apply (sort_by_head op_key key_leb key_leb_total key_leb_trans) in Hsort
      as [Hin Hmin].
    apply candidates_spec in Hin as [Hin Hfull].
    exists r. repeat split; try done.
    intros op Hop Hmatch.
    assert (key_rel op_key key_leb r op) as Hle
      by (apply Hmin, candidates_spec; done).
    by apply key_leb_spec in Hle.
Qed.

(** C6. If some operation of the catalog matches all keywords, the
    resolver returns an operation that matches all of them, and no
    operation that matches all keywords comes before it under
    (length of id, id). *)
Theorem find_op_strict_pass_minimal self keywords :
  (exists op, op ∈ Dict.values (_operations self) /\ full_match str_lower keywords op) ->
  exists r,
    _find_op str_lower self keywords = Return r /\
    r ∈ Dict.values (_operations self) /\
    full_match str_lower keywords r /\
    forall op, op ∈ Dict.values (_operations self) ->
      full_match str_lower keywords op -> before r op.
Proof.
  intros (op & Hop & Hfull). apply find_op_strict.
  intros Hnil.
  assert (op ∈ List.filter (matches_all str_lower keywords)
                           (Dict.values (_operations self))) as Hin
    by (by apply candidates_spec).
  rewrite Hnil in Hin. by apply elem_of_nil in Hin.
Qed.

(** C10. On a non-empty catalog, a keyword list with no non-empty keyword
    makes every operation a candidate of the strict pass, and the resolver
    returns the operation that comes first under (length of id, id). *)
Theorem find_op_no_keywords self keywords :
  _operations self <> [] ->
  (forall k, k ∈ keywords -> k = []) ->
  List.filter (matches_all str_lower keywords) (Dict.values (_operations self))
    = Dict.values (_operations self) /\
  exists r,
    _find_op str_lower self keywords = Return r /\
    r ∈ Dict.values (_operations self) /\
    forall op, op ∈ Dict.values (_operations self) -> before r op.
Proof.
  intros Hne Hempty.
  assert (forall op, full_match str_lower keywords op) as Hall.
  { intros op k Hk Hk'. by apply Hempty in Hk. }
  assert (List.filter (matches_all str_lower keywords)
                      (Dict.values (_operations self))
          = Dict.values (_operations self)) as Hfilter.
  { induction (Dict.values (_operations self)) as [|op ops IH]; simpl; [done|].
    by rewrite (proj2 (matches_all_spec keywords op) (Hall op)), IH. }
  split; [done|].
  destruct (find_op_strict self keywords) as (r & Hr & Hin & _ & Hmin).
  - rewrite Hfilter. unfold Dict.values.
    destruct (_operations self); [done | discriminate].
  - exists r. repeat split; try done. intros op Hop. by apply Hmin.
Qed.

End Resolver.

(** ** Listing, [list_endpoints] *)

#[local] Instance str_le_trans : Transitive str_le.
Proof. intros a b c. apply leb_trans. Qed.

#[local] Instance str_le_antisym : AntiSymm (=) str_le.
Proof. intros a b. apply leb_antisym. Qed.

Lemma list_endpoints_Sorted self : Sorted str_le (list_endpoints self).
Proof. apply (sort_by_Sorted (fun k => k) PyStr.leb leb_total). Qed.

Lemma list_endpoints_Permutation self :
  list_endpoints self ≡ₚ Dict.keys (_operations self).
Proof. apply sort_by_Permutation. Qed.

(** C9. The listing holds exactly the ids of the catalog, in ascending
    lexicographic order, and it depends only on which ids the catalog
    holds, not on the order they were inserted in: two catalogs with the
    same ids list alike, and so do two listings of one catalog. *)
Theorem list_endpoints_sorted_stable self :
  StronglySorted str_le (list_endpoints self) /\
  list_endpoints self ≡ₚ Dict.keys (_operations self) /\
  (forall self',
     Dict.keys (_operations self') ≡ₚ Dict.keys (_operations self) ->
     list_endpoints self' = list_endpoints self).
Proof.
  split; [|split].
  - apply Sorted_StronglySorted; [apply _ | apply list_endpoints_Sorted].
  - apply list_endpoints_Permutation.
  - intros self' Hkeys.
    apply (Sorted_unique str_le); try apply list_endpoints_Sorted.
    by rewrite !list_endpoints_Permutation.
Qed.

(** ** The request executor, [_request] *)

Lemma requests_in_app l l' :
  requests_in (l ++ l') = (requests_in l + requests_in l')%nat.
Proof. unfold requests_in. by rewrite List.filter_app, length_app. Qed.

Lemma requests_in_request l rq :
  requests_in (l ++ [Requested rq]) = S (requests_in l).
Proof. rewrite requests_in_app. unfold requests_in. simpl. lia. Qed.

Lemma requests_in_sleep l d : requests_in (l ++ [Slept d]) = requests_in l.
Proof. rewrite requests_in_app. unfold requests_in. simpl. lia. Qed.

Section Executor.
Variable str_upper : pystr -> pystr.
Variable srv : server.
Variables (self : client) (method url : pystr).
Variables (query : option query_dict) (body : option json).
Variables (files : option file_dict) (hdrs : header_dict).
Variable rq : request.
Hypothesis Hrq :
  request_kwargs str_upper self method url query body files hdrs = Return rq.

#[local] Abbreviation once :=
  (attempt_once str_upper srv self method url query body files hdrs).
#[local] Abbreviation loop :=
  (attempts str_upper srv self method url query body files hdrs).

(** One turn of the loop, by the outcome of its request. *)
Lemma attempt_once_eq attempt last l :
  once attempt last l =
  let l1 := l ++ [Requested rq] in
  let d := (backoff self * inject_Z attempt)%Q in
  match srv (requests_in l) rq with
  | Responds r =>
      if is_2xx (status_code r) then
        match response_value r with
        | Some v => (Return (Done v), l1)
        | None => (Raise JSONDecodeError, l1)
        end
      else if is_5xx (status_code r) && (attempt <=? retries self)%Z then
        if Qle_bool 0 d then (Return (Continue last), l1 ++ [Slept d])
        else (Raise ValueError, l1)
      else (Raise (attempt_error url (Responds r)), l1)
  | Fails ne =>
      if (attempt <=? retries self)%Z then
        if Qle_bool 0 d then (Return (Continue (Some ne)), l1 ++ [Slept d])
        else (Raise ValueError, l1)
      else (Raise (attempt_error url (Fails ne)), l1)
  | Crashes detail => (Raise (OtherException detail), l1)
  end.
Proof using Hrq.
  unfold attempt_once, try_except, bind, lift, session_request.
  rewrite Hrq. cbn zeta.
  destruct (srv (requests_in l) rq) as [r|ne|detail]; [| |done].
  - unfold response_value.
    destruct (is_2xx (status_code r)).
    + destruct (PyStr.contains _ (content_type r)); [|done].
      by destruct (resp_json r).
    + destruct (is_5xx (status_code r) && (attempt <=? retries self)%Z); [|done].
      unfold sleep, ret. by destruct (Qle_bool 0 _).
  - destruct (attempt <=? retries self)%Z; [|done].
    unfold bind, sleep, ret. by destruct (Qle_bool 0 _).
Qed.

Lemma loop_S n attempt last l :
  loop (S n) attempt last l =
  match once attempt last l with
  | (Return (Done v), l') => (Return v, l')
  | (Return (Continue last'), l') => loop n (attempt + 1)%Z last' l'
  | (Raise e, l') => (Raise e, l')
  end.
Proof.
  simpl. unfold bind.
  destruct (attempt_once _ _ _ _ _ _ _ _ _ _ _ _) as [[[v|last']|e] l']; done.
Qed.

Lemma is_5xx_not_2xx s : is_5xx s = true -> is_2xx s = false.
Proof.
  unfold is_5xx, is_2xx. intros [H _]%andb_true_iff. apply Z.leb_le in H.
  apply andb_false_iff. right. apply Z.ltb_ge. lia.
Qed.

Lemma backoff_sleep_ok attempt :
  (0 <= backoff self)%Q -> (1 <= attempt)%Z ->
  Qle_bool 0 (backoff self * inject_Z attempt) = true.
Proof.
  intros Hb Ha. apply Qle_bool_iff, Qmult_le_0_compat; [done|].
  unfold Qle. simpl. lia.
Qed.

(** When every attempt fails transiently, the loop makes all its turns and
    the last turn raises the error of its own attempt. *)
Lemma loop_all_transient n attempt last l :
  (1 <= attempt)%Z ->
  (attempt + Z.of_nat n = retries self + 1)%Z ->
  (0 <= backoff self)%Q ->
  (forall i, (i <= n)%nat -> transient (srv (requests_in l + i) rq) = true) ->
  exists l',
    loop (S n) attempt last l =
      (Raise (attempt_error url (srv (requests_in l + n) rq)), l') /\
    requests_in l' = (requests_in l + S n)%nat.
Proof using Hrq.
  revert attempt last l. induction n as [|n IH]; intros attempt last l Ha Hn Hb Ht.
  - rewrite loop_S, attempt_once_eq. cbn zeta.
    assert ((attempt <=? retries self)%Z = false) as -> by (apply Z.leb_gt; lia).
    specialize (Ht 0%nat (Nat.le_refl _)). rewrite Nat.add_0_r in *.
    exists (l ++ [Requested rq]). rewrite requests_in_request.
    split; [|lia].
    destruct (srv (requests_in l) rq) as [r|ne|detail]; simpl in *; try done.
    by rewrite (is_5xx_not_2xx _ Ht), andb_false_r.
  - rewrite loop_S, attempt_once_eq. cbn zeta.
    assert ((attempt <=? retries self)%Z = true) as -> by (apply Z.leb_le; lia).
    rewrite (backoff_sleep_ok attempt Hb Ha).
    pose proof (Ht 0%nat (Nat.le_0_l _)) as Ht0. rewrite Nat.add_0_r in Ht0.
    set (l2 := (l ++ [Requested rq]) ++ [Slept (backoff self * inject_Z attempt)]).
    assert (requests_in l2 = S (requests_in l)) as Hl2
      by (subst l2; by rewrite requests_in_sleep, requests_in_request).
    assert (forall last', exists l',
      loop (S n) (attempt + 1)%Z last' l2 =
        (Raise (attempt_error url (srv (requests_in l + S n) rq)), l') /\
      requests_in l' = (requests_in l + S (S n))%nat) as Hnext.
    { intros last'.
      destruct (IH (attempt + 1)%Z last' l2) as (l' & Hrun & Hcount);
        [lia | lia | done | |].
      - intros i Hi. rewrite Hl2.
        replace (S (requests_in l) + i)%nat with (requests_in l + S i)%nat by lia.
        apply Ht. lia.
      - exists l'. rewrite Hrun, Hcount, Hl2.
        replace (S (requests_in l) + n)%nat with (requests_in l + S n)%nat by lia.
        split; [done | lia]. }
    destruct (srv (requests_in l) rq) as [r|ne|detail]; simpl in Ht0;
      [|apply Hnext|done].
    rewrite (is_5xx_not_2xx _ Ht0), Ht0. simpl. apply Hnext.
Qed.

(** One turn issues the request first, and nothing but that request. *)
Lemma once_events attempt last l t l1 :
  once attempt last l = (t, l1) ->
  exists evs,
    l1 = l ++ Requested rq :: evs /\
    forall rq', Requested rq' ∈ evs -> False.
Proof using Hrq.
  rewrite attempt_once_eq. cbn zeta.
  assert (forall d rq', Requested rq' ∈ [Slept d] -> False) as Hsleep.
  { intros d rq' Hin. apply list_elem_of_singleton in Hin. discriminate. }
  assert (forall rq', Requested rq' ∈ @nil event -> False) as Hnil.
  { intros rq' Hin. by apply elem_of_nil in Hin. }
  intros Hrun.
  repeat match type of Hrun with
         | (match ?x with _ => _ end) = _ => destruct x
         | (if ?x then _ else _) = _ => destruct x
         end;
    injection Hrun as <- <-;
    first [ by exists []
          | eexists [Slept _]; split;
            [by rewrite <- app_assoc | by apply Hsleep] ].
Qed.

(** The loop issues no request but [rq]. *)
Lemma loop_events n attempt last l r l' :
  loop n attempt last l = (r, l') ->
  exists evs, l' = l ++ evs /\ forall rq', Requested rq' ∈ evs -> rq' = rq.
Proof using Hrq.
  revert attempt last l. induction n as [|n IH]; intros attempt last l Hrun.
  - injection Hrun as <- <-. exists []. rewrite app_nil_r. split; [done|].
    intros rq' Hin. by apply elem_of_nil in Hin.
  - rewrite loop_S in Hrun.
    destruct (once attempt last l) as [t l1] eqn:Honce.
    apply once_events in Honce as (evs & -> & Hevs).
    assert (forall rq', Requested rq' ∈ Requested rq :: evs -> rq' = rq) as Hturn.
    { intros rq' [Heq|Hin]%elem_of_cons; [congruence | by destruct (Hevs rq')]. }
    destruct t as [[v|last']|e].
    + injection Hrun as <- <-. eauto.
    + apply IH in Hrun as (evs' & -> & Hevs').
      exists ((Requested rq :: evs) ++ evs'). rewrite app_assoc. split; [done|].
      intros rq' [Hin|Hin]%elem_of_app; auto.
    + injection Hrun as <- <-. eauto.
Qed.

(** With at least one turn to make, the first thing the loop does is to
    issue [rq]. *)
Lemma loop_first_event n attempt last l r l' :
  loop (S n) attempt last l = (r, l') ->
  exists evs, l' = l ++ Requested rq :: evs.
Proof using Hrq.
  rewrite loop_S. intros Hrun.
  destruct (once attempt last l) as [t l1] eqn:Honce.
  apply once_events in Honce as (evs & -> & _).
  destruct t as [[v|last']|e].
  - injection Hrun as <- <-. eauto.
  - apply loop_events in Hrun as (evs' & -> & _).
    exists (evs ++ evs'). by rewrite <- app_assoc.
  - injection Hrun as <- <-. eauto.
Qed.

End Executor.

Lemma request_kwargs_fields str_upper self method url query body files hdrs rq :
  request_kwargs str_upper self method url query body files hdrs = Return rq ->
  rq_method rq = str_upper method /\
  rq_timeout rq = timeout self /\
  rq_json rq = (if send_json body files then body else None) /\
  rq_data rq = (if send_json body files then None else body) /\
  rq_files rq = files /\
  rq_headers rq = Some hdrs.
Proof.
  unfold request_kwargs. destruct (present query).
  - destruct (urlencode _); [|done]. by intros [= <-].
  - by intros [= <-].
Qed.

Lemma request_kwargs_raise str_upper self method url query body files hdrs e :
  request_kwargs str_upper self method url query body files hdrs = Raise e ->
  e = UnicodeEncodeError.
Proof.
  unfold request_kwargs. destruct (present query); [|done].
  destruct (urlencode _); [done|]. by intros [= <-].
Qed.

(** When the query cannot be encoded, the loop ends before any request. *)
Lemma loop_unencodable str_upper srv self method url query body files hdrs
    e n attempt last l :
  request_kwargs str_upper self method url query body files hdrs = Raise e ->
  exists e',
    attempts str_upper srv self method url query body files hdrs n attempt last l
    = (Raise e', l).
Proof.
  intros Hrq. pose proof (request_kwargs_raise _ _ _ _ _ _ _ _ _ Hrq) as ->.
  destruct n as [|n]; simpl; [by eexists|].
  unfold bind, attempt_once, try_except, bind, lift. rewrite Hrq. by eexists.
Qed.

(** C3. With [retries = 3]: a server that answers 503 to every attempt
    gets exactly 4 requests and the call fails; one that answers 503 and
    then 200 gets exactly 2 requests and the call returns; a 404 ends the
    call with an error after exactly 1 request, without a retry. *)
Theorem retry_boundaries str_upper srv self method url query body files
    hdrs_arg rq l :
  retries self = 3%Z ->
  (0 <= backoff self)%Q ->
  request_kwargs str_upper self method url query body files
                 (merged_headers self hdrs_arg) = Return rq ->
  let run := _request str_upper srv self method url query body files hdrs_arg l in
  ((forall i, exists r, srv i rq = Responds r /\ status_code r = 503%Z) ->
   exists r l',
     run = (Raise (LegalAPIError
                     (HttpError 503 url (take 500 (text r)) (_safe_json r))), l') /\
     requests_in l' = (requests_in l + 4)%nat) /\
  (forall r1 r2 v,
     srv (requests_in l) rq = Responds r1 -> status_code r1 = 503%Z ->
     srv (S (requests_in l)) rq = Responds r2 -> status_code r2 = 200%Z ->
     response_value r2 = Some v ->
     exists l',
       run = (Return v, l') /\
       l' = l ++ [Requested rq; Slept (backoff self * inject_Z 1); Requested rq] /\
       requests_in l' = (requests_in l + 2)%nat) /\
  (forall r,
     srv (requests_in l) rq = Responds r -> status_code r = 404%Z ->
     exists l',
       run = (Raise (LegalAPIError
                       (HttpError 404 url (take 500 (text r)) (_safe_json r))), l') /\
       l' = l ++ [Requested rq] /\
       requests_in l' = (requests_in l + 1)%nat).
Proof.
  intros Hretries Hbackoff Hrq run. subst run. unfold _request.
  rewrite Hretries. change (Z.to_nat (3 + 1)) with 4%nat.
  split; [|split].
  - intros H503.
    destruct (loop_all_transient str_upper srv self method url query body files
                _ rq Hrq 3 1%Z None l) as (l' & Hrun & Hcount);
      [lia | lia | done | |].
    + intros i _. destruct (H503 (requests_in l + i)%nat) as (r & -> & Hr).
      simpl. by rewrite Hr.
    + destruct (H503 (requests_in l + 3)%nat) as (r & Hsrv & Hr).
      rewrite Hsrv in Hrun. simpl in Hrun. rewrite Hr in Hrun. eauto.
  - intros r1 r2 v Hsrv1 Hr1 Hsrv2 Hr2 Hv. eexists. split; [|split; [done|]].
    + rewrite (loop_S str_upper srv), (attempt_once_eq str_upper srv _ _ _ _ _ _ _ rq Hrq).
      cbn zeta. rewrite Hsrv1, Hr1, Hretries.
      change (is_2xx 503) with false.
      change (is_5xx 503 && (1 <=? 3)%Z) with true. cbv iota.
      rewrite (backoff_sleep_ok self 1 Hbackoff) by lia.
      rewrite (loop_S str_upper srv), (attempt_once_eq str_upper srv _ _ _ _ _ _ _ rq Hrq).
      cbn zeta. rewrite requests_in_sleep, requests_in_request, Hsrv2, Hr2.
      change (is_2xx 200) with true. cbv iota.
      rewrite Hv. by rewrite <- !app_assoc.
    + rewrite requests_in_app. unfold requests_in at 2. simpl. lia.
  - intros r Hsrv Hr. eexists. split; [|split; [done|]].
    + rewrite (loop_S str_upper srv), (attempt_once_eq str_upper srv _ _ _ _ _ _ _ rq Hrq).
      cbn zeta. rewrite Hsrv, Hr.
      change (is_2xx 404) with false. change (is_5xx 404) with false.
      unfold attempt_error. by rewrite Hr.
    + by rewrite requests_in_request, Nat.add_1_r.
Qed.

(** C2, as the code has it.  When every attempt fails transiently,
    [_request] raises the error of the last attempt itself, an [HttpError]
    or a [NetworkError]: never [RequestFailedAfterRetries], and exactly the
    error that a client with [retries = 0] raises when its only attempt
    meets the same outcome. *)
Theorem exhausted_retries_raise_attempt_error str_upper srv self method url
    query body files hdrs_arg rq l :
  (0 <= retries self)%Z ->
  (0 <= backoff self)%Q ->
  request_kwargs str_upper self method url query body files
                 (merged_headers self hdrs_arg) = Return rq ->
  (forall i, transient (srv i rq) = true) ->
  let o := srv (requests_in l + Z.to_nat (retries self))%nat rq in
  (exists l',
     _request str_upper srv self method url query body files hdrs_arg l
       = (Raise (attempt_error url o), l') /\
     requests_in l' = (requests_in l + Z.to_nat (retries self) + 1)%nat) /\
  (forall last_err,
     attempt_error url o <> LegalAPIError (RequestFailedAfterRetries last_err)) /\
  (forall srv0 self0 rq0 l0,
     retries self0 = 0%Z ->
     request_kwargs str_upper self0 method url query body files
                    (merged_headers self0 hdrs_arg) = Return rq0 ->
     srv0 (requests_in l0) rq0 = o ->
     _request str_upper srv0 self0 method url query body files hdrs_arg l0
       = (Raise (attempt_error url o), l0 ++ [Requested rq0])).
Proof.
  intros Hretries Hbackoff Hrq Ht o. split; [|split].
  - unfold _request.
    replace (Z.to_nat (retries self + 1)) with (S (Z.to_nat (retries self)))
      by lia.
    destruct (loop_all_transient str_upper srv self method url query body files
                _ rq Hrq (Z.to_nat (retries self)) 1%Z None l)
      as (l' & Hrun & Hcount); [lia | lia | done | done |].
    exists l'. split; [done | lia].
  - intros last_err. subst o.
    by destruct (srv _ rq).
  - intros srv0 self0 rq0 l0 Hretries0 Hrq0 Hsrv0. unfold _request.
    rewrite Hretries0. change (Z.to_nat (0 + 1)) with 1%nat.
    rewrite (loop_S str_upper srv0),
      (attempt_once_eq str_upper srv0 _ _ _ _ _ _ _ rq0 Hrq0).
    cbn zeta. rewrite Hsrv0, Hretries0.
    change (1 <=? 0)%Z with false.
    pose proof (Ht (requests_in l + Z.to_nat (retries self))%nat) as Ho.
    fold o in Ho. destruct o as [r|ne|detail]; simpl in Ho; [| done | done].
    by rewrite (is_5xx_not_2xx _ Ho), andb_false_r.
Qed.

(** C5, as the code has it.  Every request [_request] issues carries the
    files as given.  With files present, the body is not sent as JSON but
    handed over as form data, next to the files; without files, a body is
    sent as JSON and nothing is sent for an absent body. *)
Theorem request_body_encoding str_upper srv self method url query body files
    hdrs_arg l r l' :
  _request str_upper srv self method url query body files hdrs_arg l = (r, l') ->
  exists evs,
    l' = l ++ evs /\
    forall rq, Requested rq ∈ evs ->
      rq_files rq = files /\
      (present files = true -> rq_json rq = None /\ rq_data rq = body) /\
      (present files = false -> rq_json rq = body /\ rq_data rq = None).
Proof.
  unfold _request. intros Hrun.
  destruct (request_kwargs str_upper self method url query body files
              (merged_headers self hdrs_arg)) as [rq0|e] eqn:Hrq.
  - pose proof (request_kwargs_fields _ _ _ _ _ _ _ _ _ Hrq)
      as (_ & _ & Hjson & Hdata & Hfiles & _).
    destruct (loop_events str_upper srv _ _ _ _ _ _ _ rq0 Hrq _ _ _ _ _ _ Hrun)
      as (evs & Hlog & Hevs).
    exists evs. split; [done|]. intros rq Hin. rewrite (Hevs rq Hin).
    rewrite Hjson, Hdata, Hfiles. unfold send_json.
    split; [done|]. split; intros ->; by destruct body.
  - destruct (loop_unencodable str_upper srv self method url query body files
                _ e (Z.to_nat (retries self + 1)) 1%Z None l Hrq) as [e' He'].
    rewrite He' in Hrun. injection Hrun as <- <-.
    exists []. rewrite app_nil_r. split; [done|].
    intros rq Hin. by apply elem_of_nil in Hin.
Qed.

(** ** Direct invocation, [call] *)

Lemma dict_get_None {V} k (d : Dict.t V) :
  Dict.get k d = None <-> k ∉ Dict.keys d.
Proof.
  induction d as [|[k' v] d IH]; simpl.
  - split; [intros _; apply not_elem_of_nil | done].
  - rewrite not_elem_of_cons. case_bool_decide; [|tauto].
    split; [done | intros [? _]; done].
Qed.

Lemma dict_get_Some {V} k (d : Dict.t V) :
  k ∈ Dict.keys d -> exists v, Dict.get k d = Some v /\ (k, v) ∈ d.
Proof.
  induction d as [|[k' v] d IH]; simpl.
  - intros Hin. by apply elem_of_nil in Hin.
  - intros Hin. case_bool_decide as Hk.
    + subst k'. exists v. split; [done | left].
    + apply elem_of_cons in Hin as [Hin|Hin]; [done|].
      destruct (IH Hin) as (v' & Hget & Hmem). exists v'. split; [done | by right].
Qed.

(** C7. An id that is not in the catalog makes [call] raise
    [UnknownOperationId] with the log untouched, so before any request.
    For an id of the catalog the lookup finds its operation and the call
    is the execution of that operation: the URL is built and [_request]
    runs; with [retries >= 0] the first thing that then happens is the
    request itself. *)
Theorem call_unknown_or_executes str_upper srv self op_id args :
  (op_id ∉ Dict.keys (_operations self) ->
   forall l,
     call str_upper srv self op_id args l
     = (Raise (LegalAPIError (UnknownOperationId op_id)), l)) /\
  (op_id ∈ Dict.keys (_operations self) ->
   exists op,
     Dict.get op_id (_operations self) = Some op /\
     (op_id, op) ∈ _operations self /\
     call str_upper srv self op_id args
     = (let* url := lift (_build_url self (path op)
                                     (default [] (path_params args))) in
        _request str_upper srv self (method op) url (query args) (body args)
                 (files args) (headers args)) /\
     forall url rq l r l',
       (0 <= retries self)%Z ->
       _build_url self (path op) (default [] (path_params args)) = Return url ->
       request_kwargs str_upper self (method op) url (query args) (body args)
         (files args) (merged_headers self (headers args)) = Return rq ->
       call str_upper srv self op_id args l = (r, l') ->
       exists evs, l' = l ++ Requested rq :: evs).
Proof.
  split.
  - intros Habsent l. apply dict_get_None in Habsent.
    unfold call. by rewrite Habsent.
  - intros Hpresent. destruct (dict_get_Some _ _ Hpresent) as (op & Hget & Hmem).
    exists op. repeat split; try done.
    + unfold call. by rewrite Hget.
    + intros url rq l r l' Hretries Hurl Hrq. unfold call. rewrite Hget.
      unfold bind, lift. rewrite Hurl. unfold _request.
      replace (Z.to_nat (retries self + 1)) with (S (Z.to_nat (retries self)))
        by lia.
      apply (loop_first_event str_upper srv _ _ _ _ _ _ _ rq Hrq).
Qed.

(** ** Path substitution, [_build_url] *)

Lemma replace_from_skip old new a s :
  PyStr.replace_from old new (length a) (a ++ s) = PyStr.replace_from old new 0 s.
Proof. induction a as [|c a IH]; simpl; [by destruct s | done]. Qed.

Lemma replace_from_absent old new s :
  PyStr.contains old s = false -> PyStr.replace_from old new 0 s = s.
Proof.
  induction s as [|c s IH]; [done|].
  change (PyStr.contains old (c :: s))
    with (PyStr.starts_with old (c :: s) || PyStr.contains old s).
  intros [Hstart Hrest]%orb_false_iff.
  cbn [PyStr.replace_from]. rewrite Hstart. by rewrite IH.
Qed.

Lemma replace_from_prefix x old new pre s :
  x ∉ pre ->
  PyStr.replace_from (x :: old) new 0 (pre ++ s)
  = pre ++ PyStr.replace_from (x :: old) new 0 s.
Proof.
  induction pre as [|c pre IH]; [done|].
  intros [Hc Hpre]%not_elem_of_cons.
  cbn [app PyStr.replace_from PyStr.starts_with].
  assert ((x =? c)%N = false) as -> by (apply N.eqb_neq; congruence).
  cbn [andb]. by rewrite IH.
Qed.

Lemma replace_from_occurrence x old new post :
  PyStr.replace_from (x :: old) new 0 ((x :: old) ++ post)
  = new ++ PyStr.replace_from (x :: old) new 0 post.
Proof.
  cbn [app PyStr.replace_from].
  assert (PyStr.starts_with (x :: old) (x :: old ++ post) = true) as ->
    by (apply starts_with_spec; by exists post).
  replace (length (x :: old) - 1)%nat with (length old) by (simpl; lia).
  by rewrite replace_from_skip.
Qed.

(** One occurrence, with nothing before it that could start another and
    none after it, is replaced in place. *)
Lemma replace_single x old new pre post :
  x ∉ pre ->
  PyStr.contains (x :: old) post = false ->
  PyStr.replace (x :: old) new (pre ++ (x :: old) ++ post) = pre ++ new ++ post.
Proof.
  intros Hpre Hpost. unfold PyStr.replace.
  rewrite replace_from_prefix, replace_from_occurrence by done.
  by rewrite replace_from_absent.
Qed.

Lemma replace_absent x old new s :
  PyStr.contains (x :: old) s = false -> PyStr.replace (x :: old) new s = s.
Proof. apply replace_from_absent. Qed.

Lemma substitute_no_api_error url items e :
  substitute url items = Raise e -> e = UnicodeEncodeError.
Proof.
  revert url. induction items as [|[k v] items IH]; intros url; simpl; [done|].
  destruct (Quote.quote v); [apply IH | by intros [= <-]].
Qed.

Lemma substitute_untouched url items :
  (forall k v, (k, v) ∈ items ->
     PyStr.contains (lit "{" ++ k ++ lit "}") url = false /\
     is_Some (Quote.quote v)) ->
  substitute url items = Return url.
Proof.
  induction items as [|[k v] items IH]; intros Hitems; [done|].
  cbn [substitute].
  destruct (Hitems k v) as [Habsent [qv Hqv]]; [left|].
  rewrite Hqv. change (lit "{" ++ k ++ lit "}") with (123%N :: k ++ lit "}") in *.
  rewrite replace_absent by done.
  apply IH. intros k' v' Hin. apply Hitems. by right.
Qed.

(** *** What the encoder produces *)

Lemma utf8_cp_bytes c bs b :
  Quote.utf8_cp c = Some bs -> b ∈ bs -> (b < 256)%N.
Proof.
  unfold Quote.utf8_cp.
  destruct (N.ltb_spec c 128); [|destruct (N.ltb_spec c 2048);
    [|destruct (N.ltb_spec c 65536);
      [destruct ((55296 <=? c)%N && (c <=? 57343)%N); [done|]
      |destruct (N.ltb_spec c 1114112); [|done]]]];
    intros [= <-] Hb;
    repeat (apply elem_of_cons in Hb as [->|Hb]);
    try (by apply elem_of_nil in Hb).
  - lia.
  - assert (c / 64 < 32)%N by (apply N.Div0.div_lt_upper_bound; lia). lia.
  - pose proof (N.mod_upper_bound c 64). lia.
  - assert (c / 4096 < 16)%N by (apply N.Div0.div_lt_upper_bound; lia). lia.
  - pose proof (N.mod_upper_bound (c / 64) 64). lia.
  - pose proof (N.mod_upper_bound c 64). lia.
  - assert (c / 262144 < 5)%N by (apply N.Div0.div_lt_upper_bound; lia). lia.
  - pose proof (N.mod_upper_bound (c / 4096) 64). lia.
  - pose proof (N.mod_upper_bound (c / 64) 64). lia.
  - pose proof (N.mod_upper_bound c 64). lia.
Qed.

Lemma utf8_bytes s bs b :
  Quote.utf8 s = Some bs -> b ∈ bs -> (b < 256)%N.
Proof.
  revert bs. induction s as [|c s IH]; intros bs; cbn [Quote.utf8].
  - intros [= <-] Hb. by apply elem_of_nil in Hb.
  - destruct (Quote.utf8_cp c) as [cs|] eqn:Hc; [|done].
    destruct (Quote.utf8 s) as [rest|]; [|done].
    intros [= <-] [Hb|Hb]%elem_of_app.
    + by apply (utf8_cp_bytes c cs).
    + by apply (IH rest).
Qed.

Lemma hex_digit_safe d : (d < 16)%N -> Quote.always_safe (Quote.hex_digit d) = true.
Proof.
  intros Hd. unfold Quote.hex_digit. destruct d as [|p]; [reflexivity|].
  do 4 (destruct p as [p|p|]; try reflexivity); lia.
Qed.

Lemma quote_byte_chars b c :
  (b < 256)%N -> c ∈ Quote.quote_byte b ->
  Quote.always_safe c = true \/ c = 37%N.
Proof.
  intros Hb. unfold Quote.quote_byte, Quote.percent.
  destruct (Quote.always_safe b) eqn:Hsafe.
  - intros ->%list_elem_of_singleton. by left.
  - intros Hc. repeat (apply elem_of_cons in Hc as [->|Hc]).
    + by right.
    + left. apply hex_digit_safe. apply N.Div0.div_lt_upper_bound; lia.
    + left. apply hex_digit_safe. apply N.mod_upper_bound. lia.
    + by apply elem_of_nil in Hc.
Qed.

Lemma quote_chars v qv c :
  Quote.quote v = Some qv -> c ∈ qv ->
  Quote.always_safe c = true \/ c = 37%N.
Proof.
  unfold Quote.quote. destruct (Quote.utf8 v) as [bs|] eqn:Hbs; [|done].
  intros [= <-] Hc. apply list_elem_of_In, in_flat_map in Hc as (b & Hb & Hc).
  apply (quote_byte_chars b); [|by apply list_elem_of_In].
  apply (utf8_bytes v bs); [done | by apply list_elem_of_In].
Qed.

(** *** Templates *)

Lemma quote_no_open_brace v qv : Quote.quote v = Some qv -> 123%N ∉ qv.
Proof.
  intros Hqv Hin. by destruct (quote_chars v qv _ Hqv Hin).
Qed.

(** A name followed by its closing brace is found at the start of
    another name and its closing brace only if the names are the same. *)
Lemma starts_with_name k k' rest :
  125%N ∉ k -> 125%N ∉ k' ->
  PyStr.starts_with (k ++ lit "}") (k' ++ lit "}" ++ rest) = true -> k = k'.
Proof.
  revert k'. induction k as [|x k IH]; intros [|y k'] Hk Hk'; cbn.
  - done.
  - intros [Hy _]%andb_true_iff. apply N.eqb_eq in Hy as <-.
    exfalso. apply Hk'. left.
  - intros [Hx _]%andb_true_iff. apply N.eqb_eq in Hx as ->.
    exfalso. apply Hk. left.
  - intros [Hx Hrest]%andb_true_iff. apply N.eqb_eq in Hx as ->.
    apply not_elem_of_cons in Hk as [_ Hk].
    apply not_elem_of_cons in Hk' as [_ Hk'].
    f_equal. by apply IH.
Qed.

(** [str.replace] of [{k}] on a template acts piece by piece. *)
Lemma replace_placeholder k qv t :
  125%N ∉ k -> template_wf t ->
  PyStr.replace (lit "{" ++ k ++ lit "}") qv (render t)
  = render (map (fill_one k qv) t).
Proof.
  intros Hk Hwf.
  change (lit "{" ++ k ++ lit "}") with (123%N :: k ++ lit "}").
  unfold PyStr.replace, render.
  induction Hwf as [|p t Hp Hwf IH]; [done|].
  destruct p as [s|k']; cbn [flat_map map render_piece fill_one].
  - rewrite replace_from_prefix by done. by rewrite IH.
  - destruct Hp as [Hopen Hclose].
    change (lit "{" ++ k' ++ lit "}") with (123%N :: k' ++ lit "}").
    destruct (decide (k' = k)) as [->|Hne].
    + rewrite bool_decide_eq_true_2 by done.
      rewrite replace_from_occurrence. cbn [render_piece]. by rewrite IH.
    + rewrite bool_decide_eq_false_2 by done.
      cbn [app PyStr.replace_from PyStr.starts_with render_piece].
      rewrite N.eqb_refl. cbn [andb]. rewrite <- (app_assoc k').
      destruct (PyStr.starts_with _ _) eqn:Hstart.
      { apply starts_with_name in Hstart; [congruence | done..]. }
      rewrite (app_assoc k').
      rewrite replace_from_prefix.
      * rewrite IH. reflexivity.
      * intros [?|Hin]%elem_of_app; [done|].
        by apply list_elem_of_singleton in Hin.
Qed.

Lemma fill_one_wf k qv t :
  123%N ∉ qv -> template_wf t -> template_wf (map (fill_one k qv) t).
Proof.
  intros Hqv Hwf. apply Forall_map.
  eapply Forall_impl; [exact Hwf|].
  intros [s|k']; cbn; [done|]. by destruct (bool_decide (k' = k)).
Qed.

Lemma fill_after_fill_one k qv quoted t :
  flat_map (fill quoted) (map (fill_one k qv) t)
  = flat_map (fill ((k, qv) :: quoted)) t.
Proof.
  induction t as [|p t IH]; [done|].
  cbn [map flat_map]. rewrite IH. f_equal.
  destruct p as [s|k']; cbn [fill_one fill Dict.get]; [done|].
  by destruct (bool_decide (k' = k)).
Qed.

(** Substitution on a template: every placeholder that has a value
    becomes the encoded value, whatever the order of the values, and the
    rest of the template stays. *)
Lemma substitute_pieces params t quoted :
  template_wf t ->
  (forall k, k ∈ Dict.keys params -> brace_free k) ->
  quote_values params = Some quoted ->
  substitute (render t) params = Return (flat_map (fill quoted) t).
Proof.
  revert t quoted.
  induction params as [|[k v] params IH]; intros t quoted Hwf Hkeys;
    cbn [quote_values substitute].
  - intros [= <-]. done.
  - destruct (Quote.quote v) as [qv|] eqn:Hqv; [|done].
    destruct (quote_values params) as [rest|] eqn:Hrest; [|done].
    intros [= <-].
    rewrite replace_placeholder; [|apply (Hkeys k); cbn; left|done].
    rewrite (IH _ rest); [|apply fill_one_wf; [by apply (quote_no_open_brace v)|done]
                          |intros k' Hk'; apply Hkeys; cbn; by right|done].
    by rewrite fill_after_fill_one.
Qed.

Lemma substitute_unencodable params url :
  quote_values params = None -> substitute url params = Raise UnicodeEncodeError.
Proof.
  revert url. induction params as [|[k v] params IH]; intros url;
    cbn [quote_values substitute]; [done|].
  destruct (Quote.quote v) as [qv|]; [|done].
  destruct (quote_values params); [done|]. intros _. by apply IH.
Qed.

Lemma substitute_encodable params url :
  is_Some (quote_values params) <-> exists out, substitute url params = Return out.
Proof.
  split.
  - revert url. induction params as [|[k v] params IH]; intros url;
      cbn [quote_values substitute]; [by eexists|].
    destruct (Quote.quote v) as [qv|]; [|by intros [? ?]].
    destruct (quote_values params); [|by intros [? ?]].
    intros _. by apply IH.
  - intros [out Hout]. destruct (quote_values params) eqn:Hq; [done|].
    by rewrite substitute_unencodable in Hout.
Qed.

Lemma build_url_pieces self t params quoted :
  template_wf t -> 123%N ∉ base_url self ->
  (forall k, k ∈ Dict.keys params -> brace_free k) ->
  quote_values params = Some quoted ->
  _build_url self (render t) params
  = Return (base_url self ++ flat_map (fill quoted) t).
Proof.
  intros Hwf Hbase Hkeys Hquoted. unfold _build_url.
  change (base_url self ++ render t) with (render (Text (base_url self) :: t)).
  rewrite (substitute_pieces params _ quoted); [done| |done..].
  by constructor.
Qed.

Lemma quote_values_get params quoted k :
  quote_values params = Some quoted ->
  Dict.get k quoted
  = match Dict.get k params with
    | Some v => Quote.quote v
    | None => None
    end.
Proof.
  revert quoted. induction params as [|[k' v] params IH]; intros quoted;
    cbn [quote_values Dict.get].
  - by intros [= <-].
  - destruct (Quote.quote v) as [qv|] eqn:Hqv; [|done].
    destruct (quote_values params) as [rest|]; [|done].
    intros [= <-]. cbn [Dict.get].
    destruct (bool_decide (k = k')); [done | by apply IH].
Qed.

(** The URL of the request is the one [_request] was given, followed by
    the query. *)
Lemma request_kwargs_url str_upper self method url query body files hdrs :
  request_kwargs str_upper self method url query body files hdrs
  = match query_suffix query with
    | Some suffix =>
        Return {| rq_method := str_upper method;
                  rq_url := url ++ suffix;
                  rq_timeout := timeout self;
                  rq_json := if send_json body files then body else None;
                  rq_data := if send_json body files then None else body;
                  rq_files := files;
                  rq_headers := Some hdrs |}
    | None => Raise UnicodeEncodeError
    end.
Proof.
  unfold request_kwargs, query_suffix. destruct (present query).
  - by destruct (urlencode _).
  - by rewrite app_nil_r.
Qed.

(** C1, as the code has it.  [_build_url] has no missing-parameter error:
    the one exception it can raise is the encoder's, and it raises it
    exactly when a supplied value cannot be encoded, whatever the
    template.  When none of the
    supplied keys names a placeholder of the URL, the URL comes back as it
    is, braces included.  A supplied value replaces its placeholder,
    percent-encoded; so [{id}] with ["12345"] in [/efrsb/debtors/{id}]
    gives [/efrsb/debtors/12345] after the base URL.  In general, on a
    template whose braces only delimit placeholder names, the result is
    the base URL followed by the template with every placeholder that has
    a value replaced by that value, percent-encoded, at each of its
    occurrences, and every other placeholder left as written.  [call]
    sends its first request to that URL, followed by the query. *)
Theorem build_url_substitutes_supplied_only self :
  (forall path_tpl params e,
     _build_url self path_tpl params = Raise e -> e = UnicodeEncodeError) /\
  (forall path_tpl params,
     (forall k v, (k, v) ∈ params ->
        PyStr.contains (lit "{" ++ k ++ lit "}") (base_url self ++ path_tpl) = false /\
        is_Some (Quote.quote v)) ->
     _build_url self path_tpl params = Return (base_url self ++ path_tpl)) /\
  (forall pre post k v qv,
     Quote.quote v = Some qv ->
     123%N ∉ base_url self ++ pre ->
     PyStr.contains (lit "{" ++ k ++ lit "}") post = false ->
     _build_url self (pre ++ lit "{" ++ k ++ lit "}" ++ post) [(k, v)]
     = Return (base_url self ++ pre ++ qv ++ post)) /\
  (123%N ∉ base_url self ->
   _build_url self (lit "/efrsb/debtors/{id}") [(lit "id", lit "12345")]
   = Return (base_url self ++ lit "/efrsb/debtors/12345")) /\
  (forall t params quoted,
     template_wf t ->
     123%N ∉ base_url self ->
     (forall k, k ∈ Dict.keys params -> brace_free k) ->
     quote_values params = Some quoted ->
     _build_url self (render t) params
     = Return (base_url self ++ flat_map (fill quoted) t) /\
     forall k,
       Dict.get k quoted
       = match Dict.get k params with
         | Some v => Quote.quote v
         | None => None
         end) /\
  (forall path_tpl params,
     quote_values params = None ->
     _build_url self path_tpl params = Raise UnicodeEncodeError) /\
  (forall path_tpl params,
     is_Some (quote_values params) <->
     exists url, _build_url self path_tpl params = Return url) /\
  (forall str_upper srv op_id op args t quoted suffix l r l',
     Dict.get op_id (_operations self) = Some op ->
     path op = render t ->
     template_wf t ->
     123%N ∉ base_url self ->
     (forall k, k ∈ Dict.keys (default [] (path_params args)) -> brace_free k) ->
     quote_values (default [] (path_params args)) = Some quoted ->
     query_suffix (query args) = Some suffix ->
     (0 <= retries self)%Z ->
     call str_upper srv self op_id args l = (r, l') ->
     exists rq evs,
       l' = l ++ Requested rq :: evs /\
       rq_url rq = (base_url self ++ flat_map (fill quoted) t) ++ suffix).
Proof.
  assert (forall pre post k v qv,
     Quote.quote v = Some qv ->
     123%N ∉ base_url self ++ pre ->
     PyStr.contains (lit "{" ++ k ++ lit "}") post = false ->
     _build_url self (pre ++ lit "{" ++ k ++ lit "}" ++ post) [(k, v)]
     = Return (base_url self ++ pre ++ qv ++ post)) as Hsingle.
  { intros pre post k v qv Hqv Hpre Hpost. unfold _build_url.
    cbn [substitute]. rewrite Hqv. f_equal.
    change (lit "{" ++ k ++ lit "}") with (123%N :: k ++ lit "}") in *.
    rewrite (app_assoc (base_url self) pre).
    replace (lit "{" ++ k ++ lit "}" ++ post)
      with ((123%N :: k ++ lit "}") ++ post)
      by (cbn; by rewrite <- app_assoc).
    rewrite (replace_single 123%N (k ++ lit "}") qv (base_url self ++ pre) post)
      by done.
    by rewrite <- app_assoc. }
  split; [|split; [|split; [|split; [|split; [|split; [|split]]]]]].
  - intros path_tpl params e. apply substitute_no_api_error.
  - intros path_tpl params. apply substitute_untouched.
  - done.
  - intros Hbase.
    apply (Hsingle (lit "/efrsb/debtors/") [] (lit "id") (lit "12345") (lit "12345")).
    + reflexivity.
    + intros [Hin|Hin]%elem_of_app; [done|].
      vm_compute in Hin. by repeat (apply elem_of_cons in Hin as [?|Hin];
        [discriminate|]); apply elem_of_nil in Hin.
    + reflexivity.
  - intros t params quoted Hwf Hbase Hkeys Hquoted. split.
    + by apply build_url_pieces.
    + intros k. by apply quote_values_get.
  - intros path_tpl params Hnone. by apply substitute_unencodable.
  - intros path_tpl params. apply substitute_encodable.
  - intros str_upper srv op_id op args t quoted suffix l r l'
      Hget Hpath Hwf Hbase Hkeys Hquoted Hsuffix Hretries.
    unfold call. rewrite Hget. unfold bind, lift.
    rewrite Hpath, (build_url_pieces self t _ quoted) by done.
    unfold _request.
    replace (Z.to_nat (retries self + 1)) with (S (Z.to_nat (retries self)))
      by lia.
    intros Hrun.
    eapply loop_first_event in Hrun as [evs ->];
      [|rewrite request_kwargs_url, Hsuffix; reflexivity].
    eexists _, evs. split; reflexivity.
Qed.

(** ** The schema loader, [_load_openapi_schema] *)

(** C4, as the code has it.  When the primary location fails and the
    secondary answers 200 with a body [json.loads] cannot decode, the
    [SchemaIsYaml] error raised for it is caught by the enclosing
    [except Exception: pass], and the loader raises [SchemaLoadFailed],
    the error of the case where both locations fail. *)
Theorem undecodable_yaml_reported_as_load_failure json_loads srv self l r2 :
  let json_url := base_url self ++ lit "/openapi.json" in
  let yaml_url := base_url self ++ lit "/openapi.yaml" in
  let rq1 := get_kwargs self json_url None in
  let rq2 := get_kwargs self yaml_url
               (Some [(lit "Accept", lit "application/yaml, */*")]) in
  primary_fails (srv (requests_in l) rq1) ->
  srv (S (requests_in l)) rq2 = Responds r2 ->
  status_code r2 = 200%Z ->
  json_loads (text r2) = None ->
  _load_openapi_schema json_loads srv self l
  = (Raise (LegalAPIError (SchemaLoadFailed json_url yaml_url)),
     l ++ [Requested rq1; Requested rq2]).
Proof.
  intros json_url yaml_url rq1 rq2 Hfirst Hsecond H200 Hloads.
  unfold _load_openapi_schema.
  fold json_url yaml_url. fold rq1 rq2.
  unfold bind at 1.
  assert (try_except
            (let* r := session_request srv rq1 in
             if (status_code r =? 200)%Z then
               match resp_json r with
               | Some doc => ret (Some doc)
               | None => raise JSONDecodeError
               end
             else ret None)
            except_Exception_pass l
          = (Return None, l ++ [Requested rq1])) as ->.
  { unfold try_except, bind, session_request, except_Exception_pass, ret, raise.
    destruct (srv (requests_in l) rq1) as [r|ne|detail]; simpl in Hfirst;
      [|done|done].
    destruct (status_code r =? 200)%Z eqn:Hstatus; [|done].
    apply Z.eqb_eq in Hstatus. destruct Hfirst as [?| ->]; done. }
  unfold bind, try_except, session_request.
  rewrite requests_in_request, Hsecond, H200. cbn [Z.eqb Pos.eqb].
  rewrite Hloads. unfold raise, except_Exception_pass, ret.
  by rewrite <- app_assoc.
Qed.

(** ** The catalog builder, [_build_operations_index] *)

Section Builder.
Variables (str_lower str_upper : pystr -> pystr).

Lemma op_id_of_shaped method path spec :
  id_ok (JDict spec) = true ->
  op_id_of str_lower method path spec
  = Return (entry_id str_lower (path, method, spec)).
Proof.
  unfold id_ok, op_id_of, entry_id.
  destruct (Dict.get (lit "operationId") spec) as [j|]; [|done].
  destruct j as [|b|q|s|js|d];
    try (intros Hj%negb_true_iff; by rewrite Hj).
  intros _. unfold truthy. destruct s as [|c s].
  - by rewrite bool_decide_eq_true_2.
  - by rewrite bool_decide_eq_false_2.
Qed.

Lemma add_methods_shaped path ms ops :
  forallb (fun me => id_ok (snd me)) ms = true ->
  add_methods str_lower str_upper path ms ops
  = Return (fold_left (store str_lower str_upper) (method_entries path ms) ops).
Proof.
  revert ops. induction ms as [|[method v] ms IH]; intros ops; [done|].
  cbn [forallb snd]. intros [Hv Hms]%andb_true_iff.
  unfold method_entries. cbn [flat_map snd fst]. fold (method_entries path ms).
  destruct v as [|b|q|s|js|spec]; cbn [add_methods app fold_left];
    try by apply IH.
  rewrite (op_id_of_shaped _ _ _ Hv). by apply IH.
Qed.

Lemma items_of_shaped methods :
  methods_ok methods = true ->
  items_of (or_empty (Some methods)) = Return (methods_of methods) /\
  NoDup (Dict.keys (methods_of methods)) /\
  forallb (fun me => id_ok (snd me)) (methods_of methods) = true.
Proof.
  unfold methods_ok, or_empty.
  destruct methods as [|b|q|s|js|ms]; cbn [methods_of];
    try (intros ->%negb_true_iff; repeat split; constructor).
  intros [Hkeys Hids]%andb_true_iff. apply bool_decide_eq_true in Hkeys.
  repeat split; try done. by destruct ms.
Qed.

Lemma add_paths_shaped paths ops :
  forallb (fun pm => methods_ok (snd pm)) paths = true ->
  add_paths str_lower str_upper paths ops
  = Return (fold_left (store str_lower str_upper) (operation_entries paths) ops).
Proof.
  revert ops. induction paths as [|[path methods] paths IH]; intros ops; [done|].
  cbn [forallb snd]. intros [Hm Hpaths]%andb_true_iff.
  destruct (items_of_shaped methods Hm) as (Hitems & _ & Hids).
  cbn [add_paths]. rewrite Hitems, (add_methods_shaped _ _ _ Hids).
  unfold operation_entries. cbn [flat_map fst snd]. rewrite fold_left_app.
  by apply IH.
Qed.

Lemma schema_shaped_paths schema :
  schema_shaped schema = true ->
  exists top,
    schema = JDict top /\
    items_of (or_empty (Dict.get (lit "paths") top)) = Return (schema_paths schema) /\
    NoDup (Dict.keys (schema_paths schema)) /\
    forallb (fun pm => methods_ok (snd pm)) (schema_paths schema) = true.
Proof.
  destruct schema as [|b|q|s|js|top]; try done. cbn [schema_shaped schema_paths].
  intros Hok. exists top. split; [done|].
  unfold paths_ok, or_empty in *.
  destruct (Dict.get (lit "paths") top) as [v|]; [|repeat split; constructor].
  destruct v as [|b|q|s|js|ps];
    try (apply negb_true_iff in Hok as ->; repeat split; constructor).
  apply andb_true_iff in Hok as [Hkeys Hms]. apply bool_decide_eq_true in Hkeys.
  repeat split; try done. by destruct ps.
Qed.

End Builder.


Lemma dict_set_fresh {V} k (v : V) (d : Dict.t V) :
  k ∉ Dict.keys d -> Dict.set k v d = d ++ [(k, v)].
Proof.
  induction d as [|[k' v'] d IH]; [done|].
  cbn [Dict.keys List.map fst Dict.set]. intros [Hk Hd]%not_elem_of_cons.
  rewrite bool_decide_eq_false_2 by done.
  cbn [app]. f_equal. by apply IH.
Qed.

Lemma keys_app {V} (d e : Dict.t V) :
  Dict.keys (d ++ e) = Dict.keys d ++ Dict.keys e.
Proof. apply List.map_app. Qed.

Section BuilderFacts.
Variables (str_lower str_upper : pystr -> pystr).







End BuilderFacts.

(** * The theorems at work on the concrete client *)

Example demo_strings :
  Quote.quote (lit "12345") = Some (lit "12345") /\
  Quote.quote (lit "a b/c") = Some (lit "a%20b%2Fc") /\
  Quote.quote [1046%N] = Some (lit "%D0%96") /\
  PyStr.replace (lit "{id}") (lit "7") (lit "/d/{id}/x/{id}") = lit "/d/7/x/7" /\
  PyStr.replace [] (lit "-") (lit "abc") = lit "-a-b-c-" /\
  PyStr.strip (lit "/") (lit "//a/b/") = lit "a/b" /\
  urlencode [(lit "inn", QScalar (lit "7707083893"));
             (lit "t", QSeq [lit "a b"; lit "c"])]
    = Some (lit "inn=7707083893&t=a+b&t=c").
Proof. repeat split; reflexivity. Qed.

(** The end-to-end scenario: the keywords resolve to
    [searchEFRSBNotices], and calling it with the query issues
    [GET /efrsb/notices?inn=7707083893] and returns the decoded JSON. *)
Example demo_end_to_end :
  _find_op PyStr.ascii_lower demo_client [lit "efrsb"; lit "notice"]
    = Return (mkOperation (lit "GET") (lit "/efrsb/notices")
                          (lit "searchEFRSBNotices")) /\
  call PyStr.ascii_upper (always (Responds demo_ok)) demo_client
       (lit "searchEFRSBNotices")
       {| path_params := None;
          query := Some [(lit "inn", QScalar (lit "7707083893"))];
          body := None; files := None; headers := None |} []
    = (Return (VJson (JDict [])),
       [Requested (demo_request
          (lit "https://legal-api.sirotinsky.com/efrsb/notices?inn=7707083893"))]).
Proof. split; reflexivity. Qed.

Example demo_build :
  _build_operations_index PyStr.ascii_lower PyStr.ascii_upper demo_schema
  = Return
      [(lit "searchEFRSBNotices",
        mkOperation (lit "GET") (lit "/efrsb/notices") (lit "searchEFRSBNotices"));
       (lit "get_efrsb_debtors_id",
        mkOperation (lit "GET") (lit "/efrsb/debtors/{id}")
                    (lit "get_efrsb_debtors_id"))].
Proof. reflexivity. Qed.

(** ** Where the code departs from the specification *)

(** C1 does not hold as the specification words it: calling
    [getEFRSBDebtor] without path parameters raises nothing; the request
    goes out with [{id}] in its URL. *)
Lemma unresolved_placeholder_is_requested :
  call PyStr.ascii_upper (always (Responds demo_ok)) demo_client
       (lit "getEFRSBDebtor") no_args []
  = (Return (VJson (JDict [])),
     [Requested (demo_request
        (lit "https://legal-api.sirotinsky.com/efrsb/debtors/{id}"))]) /\
  substring (lit "{id}")
            (lit "https://legal-api.sirotinsky.com/efrsb/debtors/{id}").
Proof.
  split; [reflexivity|].
  by exists (lit "https://legal-api.sirotinsky.com/efrsb/debtors/"), [].
Qed.

(** C5 does not hold as the specification words it: a body supplied
    next to files is part of the request, as its form data. *)
Lemma body_with_files_is_sent_as_data :
  _request PyStr.ascii_upper (always (Responds demo_ok)) demo_client
           (lit "POST") demo_notices_url None (Some demo_body)
           (Some demo_files) None []
  = (Return (VJson (JDict [])),
     [Requested {| rq_method := lit "POST";
                   rq_url := demo_notices_url;
                   rq_timeout := 30;
                   rq_json := None;
                   rq_data := Some demo_body;
                   rq_files := Some demo_files;
                   rq_headers := Some demo_headers |}]) /\
  Some demo_body <> None.
Proof. split; [reflexivity | discriminate]. Qed.

(** ** The theorems at concrete inputs *)

Lemma demo_template_wf : template_wf demo_template.
Proof.
  unfold template_wf, demo_template.
  repeat (constructor; [first [split; compute_done | compute_done]|]).
  constructor.
Defined.

Lemma demo_path_params_names k :
  k ∈ Dict.keys demo_path_params -> brace_free k.
Proof.
  cbn. intros Hk.
  repeat (apply elem_of_cons in Hk as [->|Hk]; [split; compute_done|]).
  by apply elem_of_nil in Hk.
Defined.

Lemma demo_base_url_no_brace : 123%N ∉ base_url demo_client.
Proof. compute_done. Defined.

Lemma build_url_substitutes_supplied_only_witness :
  _build_url demo_client (lit "/efrsb/debtors/{id}") [(lit "id", lit "12345")]
  = Return (lit "https://legal-api.sirotinsky.com/efrsb/debtors/12345") /\
  _build_url demo_client (lit "/efrsb/debtors/{id}") [(lit "inn", lit "7707")]
  = Return (lit "https://legal-api.sirotinsky.com/efrsb/debtors/{id}") /\
  _build_url demo_client (lit "/efrsb/{kind}/{id}/{part}/{id}") demo_path_params
  = Return
      (lit "https://legal-api.sirotinsky.com/efrsb/debtors/a%2Fb%3F%7Bx%7D/{part}/a%2Fb%3F%7Bx%7D") /\
  (exists rq evs,
     [Requested (demo_request
        (lit "https://legal-api.sirotinsky.com/efrsb/debtors/a%20b"))]
     = [] ++ Requested rq :: evs /\
     rq_url rq
     = lit "https://legal-api.sirotinsky.com/efrsb/debtors/a%20b").
Proof.
  destruct (build_url_substitutes_supplied_only demo_client)
    as (_ & Hkept & _ & Hsubst & Hall & _ & _ & Hcall).
  split; [|split; [|split]].
  - apply Hsubst. compute_done.
  - apply Hkept. intros k v Hin.
    apply list_elem_of_singleton in Hin as [= -> ->].
    split; [reflexivity | by eexists].
  - apply (Hall demo_template demo_path_params demo_quoted).
    + exact demo_template_wf.
    + exact demo_base_url_no_brace.
    + exact demo_path_params_names.
    + reflexivity.
  - apply (Hcall PyStr.ascii_upper (always (Responds demo_ok))
             (lit "getEFRSBDebtor")
             (mkOperation (lit "GET") (lit "/efrsb/debtors/{id}")
                          (lit "getEFRSBDebtor"))
             {| path_params := Some [(lit "id", lit "a b")]; query := None;
                body := None; files := None; headers := None |}
             [Text (lit "/efrsb/debtors/"); Placeholder (lit "id")]
             [(lit "id", lit "a%20b")] [] [] (Return (VJson (JDict [])))).
    + reflexivity.
    + reflexivity.
    + unfold template_wf.
      repeat (constructor; [first [split; compute_done | compute_done]|]).
      constructor.
    + exact demo_base_url_no_brace.
    + cbn. intros k Hk.
      repeat (apply elem_of_cons in Hk as [->|Hk]; [split; compute_done|]).
      by apply elem_of_nil in Hk.
    + reflexivity.
    + reflexivity.
    + done.
    + reflexivity.
Defined.

Lemma exhausted_retries_raise_attempt_error_witness :
  (exists l',
     _request PyStr.ascii_upper (always (Responds (demo_error 503))) demo_client
              (lit "GET") demo_notices_url None None None None []
     = (Raise (LegalAPIError
                 (HttpError 503 demo_notices_url (lit "no")
                            (JDict [(lit "text", JStr (lit "no"))]))), l') /\
     requests_in l' = 4%nat) /\
  _request PyStr.ascii_upper (always (Responds (demo_error 503)))
           demo_client_no_retry
           (lit "GET") demo_notices_url None None None None []
  = (Raise (LegalAPIError
              (HttpError 503 demo_notices_url (lit "no")
                         (JDict [(lit "text", JStr (lit "no"))]))),
     [Requested (demo_request demo_notices_url)]).
Proof.
  pose proof (exhausted_retries_raise_attempt_error
                PyStr.ascii_upper (always (Responds (demo_error 503)))
                demo_client (lit "GET") demo_notices_url None None None None
                (demo_request demo_notices_url) []
                ltac:(done) ltac:(done) eq_refl (fun _ => eq_refl)) as H.
  cbv zeta in H. split.
  - apply (proj1 H).
  - apply (proj2 (proj2 H) (always (Responds (demo_error 503)))
             demo_client_no_retry (demo_request demo_notices_url) []);
      reflexivity.
Defined.

Lemma retry_boundaries_witness :
  (exists r l',
     _request PyStr.ascii_upper (always (Responds (demo_error 503))) demo_client
              (lit "GET") demo_notices_url None None None None []
     = (Raise (LegalAPIError
                 (HttpError 503 demo_notices_url (take 500 (text r))
                            (_safe_json r))), l') /\
     requests_in l' = 4%nat) /\
  (exists l',
     _request PyStr.ascii_upper
              (scripted [Responds (demo_error 503)] (Responds demo_ok))
              demo_client (lit "GET") demo_notices_url None None None None []
     = (Return (VJson (JDict [])), l') /\
     l' = [Requested (demo_request demo_notices_url);
           Slept (backoff demo_client * inject_Z 1);
           Requested (demo_request demo_notices_url)] /\
     requests_in l' = 2%nat) /\
  (exists l',
     _request PyStr.ascii_upper (always (Responds (demo_error 404))) demo_client
              (lit "GET") demo_notices_url None None None None []
     = (Raise (LegalAPIError
                 (HttpError 404 demo_notices_url (take 500 (text (demo_error 404)))
                            (_safe_json (demo_error 404)))), l') /\
     l' = [Requested (demo_request demo_notices_url)] /\
     requests_in l' = 1%nat).
Proof.
  pose proof (fun srv =>
    retry_boundaries PyStr.ascii_upper srv demo_client (lit "GET")
      demo_notices_url None None None None (demo_request demo_notices_url) []
      eq_refl ltac:(done) eq_refl) as H.
  cbv zeta in H. split; [|split].
  - apply (proj1 (H _)). intros i. by exists (demo_error 503).
  - apply (proj1 (proj2 (H _)) (demo_error 503) demo_ok); reflexivity.
  - apply (proj2 (proj2 (H _)) (demo_error 404)); reflexivity.
Defined.

Lemma undecodable_yaml_reported_as_load_failure_witness :
  _load_openapi_schema demo_json_loads
    (scripted [Responds (demo_error 500); Responds demo_yaml] (Crashes []))
    demo_client []
  = (Raise (LegalAPIError
              (SchemaLoadFailed
                 (lit "https://legal-api.sirotinsky.com/openapi.json")
                 (lit "https://legal-api.sirotinsky.com/openapi.yaml"))),
     [Requested (get_kwargs demo_client
                   (lit "https://legal-api.sirotinsky.com/openapi.json") None);
      Requested (get_kwargs demo_client
                   (lit "https://legal-api.sirotinsky.com/openapi.yaml")
                   (Some [(lit "Accept", lit "application/yaml, */*")]))]).
Proof.
  apply (undecodable_yaml_reported_as_load_failure demo_json_loads
           (scripted [Responds (demo_error 500); Responds demo_yaml] (Crashes []))
           demo_client [] demo_yaml).
  - left. discriminate.
  - reflexivity.
  - reflexivity.
  - reflexivity.
Defined.

Lemma request_body_encoding_witness :
  exists evs,
    [Requested {| rq_method := lit "POST";
                  rq_url := demo_notices_url;
                  rq_timeout := 30;
                  rq_json := None;
                  rq_data := Some demo_body;
                  rq_files := Some demo_files;
                  rq_headers := Some demo_headers |}] = [] ++ evs /\
    forall rq, Requested rq ∈ evs ->
      rq_files rq = Some demo_files /\
      (present (Some demo_files) = true ->
       rq_json rq = None /\ rq_data rq = Some demo_body) /\
      (present (Some demo_files) = false ->
       rq_json rq = Some demo_body /\ rq_data rq = None).
Proof.
  exact (request_body_encoding PyStr.ascii_upper (always (Responds demo_ok))
           demo_client (lit "POST") demo_notices_url None (Some demo_body)
           (Some demo_files) None [] _ _ eq_refl).
Defined.

Lemma find_op_strict_pass_minimal_witness :
  exists r,
    _find_op PyStr.ascii_lower demo_client [lit "EFRSB"; lit ""; lit "debtor"]
      = Return r /\
    r ∈ Dict.values (_operations demo_client) /\
    full_match PyStr.ascii_lower [lit "EFRSB"; lit ""; lit "debtor"] r /\
    forall op, op ∈ Dict.values (_operations demo_client) ->
      full_match PyStr.ascii_lower [lit "EFRSB"; lit ""; lit "debtor"] op ->
      before r op.
Proof.
  apply find_op_strict_pass_minimal.
  exists (mkOperation (lit "GET") (lit "/efrsb/debtors/{id}") (lit "getEFRSBDebtor")).
  split.
  - right. left.
  - apply matches_all_spec. reflexivity.
Defined.

Lemma find_op_no_keywords_witness :
  List.filter (matches_all PyStr.ascii_lower [lit ""])
              (Dict.values (_operations demo_client))
    = Dict.values (_operations demo_client) /\
  exists r,
    _find_op PyStr.ascii_lower demo_client [lit ""] = Return r /\
    r ∈ Dict.values (_operations demo_client) /\
    forall op, op ∈ Dict.values (_operations demo_client) -> before r op.
Proof.
  apply find_op_no_keywords.
  - discriminate.
  - intros k Hk. by apply list_elem_of_singleton in Hk.
Defined.

Lemma list_endpoints_sorted_stable_witness :
  list_endpoints demo_client_swapped = list_endpoints demo_client /\
  list_endpoints demo_client = [lit "getEFRSBDebtor"; lit "searchEFRSBNotices"].
Proof.
  split; [|reflexivity].
  apply (proj2 (proj2 (list_endpoints_sorted_stable demo_client))).
  apply perm_swap.
Defined.

Lemma call_unknown_or_executes_witness :
  call PyStr.ascii_upper (always (Responds demo_ok)) demo_client
       (lit "getDebtor") no_args []
  = (Raise (LegalAPIError (UnknownOperationId (lit "getDebtor"))), []) /\
  exists op,
    Dict.get (lit "searchEFRSBNotices") (_operations demo_client) = Some op /\
    (lit "searchEFRSBNotices", op) ∈ _operations demo_client /\
    call PyStr.ascii_upper (always (Responds demo_ok)) demo_client
         (lit "searchEFRSBNotices") no_args
    = (let* url := lift (_build_url demo_client (path op)
                                    (default [] (path_params no_args))) in
       _request PyStr.ascii_upper (always (Responds demo_ok)) demo_client
                (method op) url (query no_args) (body no_args)
                (files no_args) (headers no_args)) /\
    forall url rq l r l',
      (0 <= retries demo_client)%Z ->
      _build_url demo_client (path op) (default [] (path_params no_args))
        = Return url ->
      request_kwargs PyStr.ascii_upper demo_client (method op) url
        (query no_args) (body no_args) (files no_args)
        (merged_headers demo_client (headers no_args)) = Return rq ->
      call PyStr.ascii_upper (always (Responds demo_ok)) demo_client
           (lit "searchEFRSBNotices") no_args l = (r, l') ->
      exists evs, l' = l ++ Requested rq :: evs.
Proof.
  split.
  - apply (proj1 (call_unknown_or_executes PyStr.ascii_upper
                    (always (Responds demo_ok)) demo_client
                    (lit "getDebtor") no_args)).
    apply dict_get_None. reflexivity.
  - apply (proj2 (call_unknown_or_executes PyStr.ascii_upper
                    (always (Responds demo_ok)) demo_client
                    (lit "searchEFRSBNotices") no_args)).
    left.
Defined.


(** * Further properties of the client *)

(** ** The retry loop in general *)

Lemma requests_in_schedule rq b first k :
  requests_in (backoff_schedule rq b first k) = k.
Proof.
  revert first. induction k as [|k IH]; intros first; [done|].
  change (backoff_schedule rq b first (S k))
    with ([Requested rq] ++ [Slept (b * inject_Z first)]
            ++ backoff_schedule rq b (first + 1) k).
  rewrite !requests_in_app, IH. unfold requests_in. simpl. lia.
Qed.

Section RetryLoop.
Variable str_upper : pystr -> pystr.
Variable srv : server.
Variables (self : client) (method url : pystr).
Variables (query : option query_dict) (body : option json).
Variables (files : option file_dict) (hdrs : header_dict).
Variable rq : request.
Hypothesis Hrq :
  request_kwargs str_upper self method url query body files hdrs = Return rq.

#[local] Abbreviation turns :=
  (attempts str_upper srv self method url query body files hdrs).

(** [k] transient failures in a row, each within the retry budget, take
    the loop [k] turns further and leave the back-off schedule in the log. *)
Lemma loop_retry_prefix k m attempt last l :
  (1 <= attempt)%Z ->
  (attempt + Z.of_nat k <= retries self + 1)%Z ->
  (0 <= backoff self)%Q ->
  (forall i, (i < k)%nat -> transient (srv (requests_in l + i) rq) = true) ->
  exists last',
    turns (k + m)%nat attempt last l
    = turns m (attempt + Z.of_nat k)%Z last'
            (l ++ backoff_schedule rq (backoff self) attempt k).
Proof using Hrq.
  revert attempt last l.
  induction k as [|k IH]; intros attempt last l Ha Hk Hb Ht.
  - exists last. by rewrite Z.add_0_r, app_nil_r.
  - change (S k + m)%nat with (S (k + m)).
    rewrite (loop_S str_upper srv),
      (attempt_once_eq str_upper srv _ _ _ _ _ _ _ rq Hrq).
    cbn zeta.
    assert ((attempt <=? retries self)%Z = true) as -> by (apply Z.leb_le; lia).
    rewrite (backoff_sleep_ok self attempt Hb Ha).
    pose proof (Ht 0%nat (Nat.lt_0_succ _)) as Ht0. rewrite Nat.add_0_r in Ht0.
    set (l2 := (l ++ [Requested rq]) ++ [Slept (backoff self * inject_Z attempt)]).
    assert (requests_in l2 = S (requests_in l)) as Hl2
      by (subst l2; by rewrite requests_in_sleep, requests_in_request).
    assert (forall last0, exists last',
      turns (k + m)%nat (attempt + 1)%Z last0 l2
      = turns m (attempt + Z.of_nat (S k))%Z last'
              (l ++ backoff_schedule rq (backoff self) attempt (S k))) as Hnext.
    { intros last0.
      destruct (IH (attempt + 1)%Z last0 l2) as [last' Hrun]; [lia | lia | done | |].
      - intros i Hi. rewrite Hl2.
        replace (S (requests_in l) + i)%nat with (requests_in l + S i)%nat by lia.
        apply Ht. lia.
      - exists last'. rewrite Hrun. subst l2.
        replace (attempt + 1 + Z.of_nat k)%Z with (attempt + Z.of_nat (S k))%Z
          by lia.
        cbn [backoff_schedule]. by rewrite <- !app_assoc. }
    destruct (srv (requests_in l) rq) as [r|ne|detail]; simpl in Ht0;
      [|apply Hnext|done].
    rewrite (is_5xx_not_2xx _ Ht0), Ht0. simpl. apply Hnext.
Qed.

(** After [k] retried failures the next attempt is made, and what it
    meets is read off the server at the [k]-th request from here. *)
Lemma request_after_retries k l :
  (0 <= backoff self)%Q ->
  (Z.of_nat k <= retries self)%Z ->
  (forall i, (i < k)%nat -> transient (srv (requests_in l + i) rq) = true) ->
  exists last m l2,
    l2 = l ++ backoff_schedule rq (backoff self) 1 k /\
    requests_in l2 = (requests_in l + k)%nat /\
    turns (Z.to_nat (retries self + 1)) 1%Z None l
    = turns (S m) (1 + Z.of_nat k)%Z last l2.
Proof using Hrq.
  intros Hb Hk Ht.
  replace (Z.to_nat (retries self + 1))
    with (k + S (Z.to_nat (retries self) - k))%nat by lia.
  destruct (loop_retry_prefix k (S (Z.to_nat (retries self) - k)) 1%Z None l)
    as [last Hrun]; [lia | lia | done | done |].
  exists last, (Z.to_nat (retries self) - k)%nat,
    (l ++ backoff_schedule rq (backoff self) 1 k). split; [done|].
  split; [|done]. by rewrite requests_in_app, requests_in_schedule.
Qed.

(** No turn of the loop raises the error of the statement after it. *)
Lemma loop_never_exhausted n attempt last l e l' :
  (attempt + Z.of_nat n = retries self + 1)%Z ->
  turns (S n) attempt last l = (Raise e, l') ->
  forall last_err, e <> LegalAPIError (RequestFailedAfterRetries last_err).
Proof using Hrq.
  revert attempt last l. induction n as [|n IH]; intros attempt last l Hn;
    rewrite (loop_S str_upper srv),
      (attempt_once_eq str_upper srv _ _ _ _ _ _ _ rq Hrq); cbn zeta.
  - assert ((attempt <=? retries self)%Z = false) as -> by (apply Z.leb_gt; lia).
    destruct (srv (requests_in l) rq) as [r|ne|detail].
    + rewrite andb_false_r.
      destruct (is_2xx (status_code r)); [destruct (response_value r)|];
        intros [= <- <-]; done.
    + intros [= <- <-]; done.
    + intros [= <- <-]; done.
  - destruct (srv (requests_in l) rq) as [r|ne|detail].
    + destruct (is_2xx (status_code r)); [destruct (response_value r)|];
        try (intros [= <- <-]; done).
      destruct (is_5xx (status_code r) && (attempt <=? retries self)%Z);
        [|intros [= <- <-]; done].
      destruct (Qle_bool 0 _); [|intros [= <- <-]; done].
      apply IH. lia.
    + destruct (attempt <=? retries self)%Z; [|intros [= <- <-]; done].
      destruct (Qle_bool 0 _); [|intros [= <- <-]; done].
      apply IH. lia.
    + intros [= <- <-]; done.
Qed.

End RetryLoop.

(** X1. Linear back-off: when the first [k] attempts fail transiently,
    [k] within the retry budget, and the next attempt meets a 2xx
    response, [_request] returns that response's value; it has made
    exactly [k + 1] requests and slept [backoff * i] after the [i]-th
    failure, in that order. *)
Theorem retry_then_success str_upper srv self method url query body files
    hdrs_arg rq l k r v :
  (0 <= backoff self)%Q ->
  request_kwargs str_upper self method url query body files
                 (merged_headers self hdrs_arg) = Return rq ->
  (Z.of_nat k <= retries self)%Z ->
  (forall i, (i < k)%nat -> transient (srv (requests_in l + i) rq) = true) ->
  srv (requests_in l + k)%nat rq = Responds r ->
  is_2xx (status_code r) = true ->
  response_value r = Some v ->
  _request str_upper srv self method url query body files hdrs_arg l
  = (Return v,
     l ++ backoff_schedule rq (backoff self) 1 k ++ [Requested rq]).
Proof.
  intros Hb Hrq Hk Ht Hsrv H2xx Hv. unfold _request.
  destruct (request_after_retries str_upper srv self method url query body
              files _ rq Hrq k l Hb Hk Ht) as (last & m & l2 & -> & Hl2 & ->).
  rewrite (loop_S str_upper srv),
    (attempt_once_eq str_upper srv _ _ _ _ _ _ _ rq Hrq).
  cbn zeta. rewrite Hl2, Hsrv, H2xx, Hv. by rewrite <- app_assoc.
Qed.

(** X2. An outcome that is not transient ends the call at once, also
    after retried failures: a response outside 2xx and 5xx raises
    [HttpError] with its status, the URL without the query, the first 500
    characters of the text and the decoded-or-wrapped payload; an
    exception of the transport other than the two caught ones passes
    through as it is; a 2xx response that declares JSON and does not
    decode raises [JSONDecodeError].  No further request follows. *)
Theorem terminal_outcome_ends_retries str_upper srv self method url query body
    files hdrs_arg rq l k :
  (0 <= backoff self)%Q ->
  request_kwargs str_upper self method url query body files
                 (merged_headers self hdrs_arg) = Return rq ->
  (Z.of_nat k <= retries self)%Z ->
  (forall i, (i < k)%nat -> transient (srv (requests_in l + i) rq) = true) ->
  let run := _request str_upper srv self method url query body files hdrs_arg l in
  let l' := l ++ backoff_schedule rq (backoff self) 1 k ++ [Requested rq] in
  (forall r,
     srv (requests_in l + k)%nat rq = Responds r ->
     is_2xx (status_code r) = false -> is_5xx (status_code r) = false ->
     run = (Raise (LegalAPIError
                     (HttpError (status_code r) url (take 500 (text r))
                                (match resp_json r with
                                 | Some j => j
                                 | None => JDict [(lit "text", JStr (text r))]
                                 end))), l')) /\
  (forall detail,
     srv (requests_in l + k)%nat rq = Crashes detail ->
     run = (Raise (OtherException detail), l')) /\
  (forall r,
     srv (requests_in l + k)%nat rq = Responds r ->
     is_2xx (status_code r) = true ->
     PyStr.contains (lit "application/json") (content_type r) = true ->
     resp_json r = None ->
     run = (Raise JSONDecodeError, l')).
Proof.
  intros Hb Hrq Hk Ht run l'. subst run l'. unfold _request.
  destruct (request_after_retries str_upper srv self method url query body
              files _ rq Hrq k l Hb Hk Ht) as (last & m & l2 & -> & Hl2 & ->).
  rewrite (loop_S str_upper srv),
    (attempt_once_eq str_upper srv _ _ _ _ _ _ _ rq Hrq).
  cbn zeta. rewrite Hl2. repeat split.
  - intros r -> -> ->. cbn [andb]. by rewrite <- app_assoc.
  - intros detail ->. by rewrite <- app_assoc.
  - intros r -> -> Hctype Hjson. unfold response_value.
    rewrite Hctype, Hjson. cbn [option_map]. by rewrite <- app_assoc.
Qed.

Lemma loop_S_unencodable str_upper srv self method url query body files hdrs
    e n attempt last l :
  request_kwargs str_upper self method url query body files hdrs = Raise e ->
  attempts str_upper srv self method url query body files hdrs (S n) attempt last l
  = (Raise UnicodeEncodeError, l).
Proof.
  intros Hrq. pose proof (request_kwargs_raise _ _ _ _ _ _ _ _ _ Hrq) as ->.
  cbn [attempts]. unfold bind, attempt_once, try_except, bind, lift.
  by rewrite Hrq.
Qed.

(** X3. The error of the statement after the loop,
    [RequestFailedAfterRetries], is raised exactly when [retries] is
    negative: then no request is made at all and the error carries no
    last error; with [retries >= 0] no server can make [_request] raise
    it. *)
Theorem exhaustion_error_only_without_attempts str_upper srv self method url
    query body files hdrs_arg :
  ((retries self < 0)%Z ->
   forall l,
     _request str_upper srv self method url query body files hdrs_arg l
     = (Raise (LegalAPIError (RequestFailedAfterRetries None)), l)) /\
  (forall l last_err l',
     _request str_upper srv self method url query body files hdrs_arg l
     = (Raise (LegalAPIError (RequestFailedAfterRetries last_err)), l') ->
     (retries self < 0)%Z).
Proof.
  split.
  - intros Hneg l. unfold _request.
    by replace (Z.to_nat (retries self + 1)) with 0%nat by lia.
  - intros l last_err l' Hrun.
    destruct (Z.lt_ge_cases (retries self) 0) as [|Hge]; [done|]. exfalso.
    unfold _request in Hrun.
    replace (Z.to_nat (retries self + 1)) with (S (Z.to_nat (retries self)))
      in Hrun by lia.
    destruct (request_kwargs str_upper self method url query body files
                (merged_headers self hdrs_arg)) as [rq|e] eqn:Hrq.
    + by apply (loop_never_exhausted str_upper srv self method url query body
                  files _ rq Hrq (Z.to_nat (retries self)) 1%Z None l _ l'
                  ltac:(lia) Hrun last_err).
    + by rewrite (loop_S_unencodable _ _ _ _ _ _ _ _ _ _ _ _ _ _ Hrq) in Hrun.
Qed.

(** ** Headers *)

Lemma dict_get_set {V} k k' (v : V) (d : Dict.t V) :
  Dict.get k (Dict.set k' v d)
  = if bool_decide (k = k') then Some v else Dict.get k d.
Proof.
  induction d as [|[k0 v0] d IH]; [done|].
  cbn [Dict.set]. destruct (bool_decide (k' = k0)) eqn:Hk'.
  - apply bool_decide_eq_true in Hk' as ->. cbn [Dict.get].
    by destruct (bool_decide (k = k0)).
  - apply bool_decide_eq_false in Hk'. cbn [Dict.get]. rewrite IH.
    destruct (bool_decide (k = k0)) eqn:Hk; [|done].
    apply bool_decide_eq_true in Hk as ->.
    by rewrite bool_decide_eq_false_2 by done.
Qed.

Lemma dict_get_update {V} k (d e : Dict.t V) :
  Dict.wf e ->
  Dict.get k (Dict.update d e)
  = match Dict.get k e with Some v => Some v | None => Dict.get k d end.
Proof.
  unfold Dict.update. revert d.
  induction e as [|[k' v'] e IH]; intros d Hwf; [done|].
  cbn [Dict.wf Dict.keys List.map fst] in Hwf.
  apply NoDup_cons in Hwf as [Hk' Hwf].
  cbn [fold_left fst snd Dict.get]. rewrite (IH _ Hwf), dict_get_set.
  destruct (bool_decide (k = k')) eqn:Hk; [|done].
  apply bool_decide_eq_true in Hk as ->.
  by rewrite (proj2 (dict_get_None k' e) Hk').
Qed.

(** X4. Every request [_request] issues carries the upper-cased method,
    the client's timeout, and the session headers overridden key by key
    by the headers of the call: a key of the call's headers has the
    call's value, every other key the session's. *)
Theorem request_carries_merged_headers str_upper srv self method url query
    body files hdrs_arg l r l' :
  Dict.wf (default [] hdrs_arg) ->
  _request str_upper srv self method url query body files hdrs_arg l = (r, l') ->
  exists evs,
    l' = l ++ evs /\
    forall rq, Requested rq ∈ evs ->
      rq_method rq = str_upper method /\
      rq_timeout rq = timeout self /\
      exists hs,
        rq_headers rq = Some hs /\
        forall k,
          Dict.get k hs
          = match Dict.get k (default [] hdrs_arg) with
            | Some v => Some v
            | None => Dict.get k (session_headers self)
            end.
Proof.
  intros Hwf Hrun. unfold _request in Hrun.
  destruct (request_kwargs str_upper self method url query body files
              (merged_headers self hdrs_arg)) as [rq0|e] eqn:Hrq.
  - pose proof (request_kwargs_fields _ _ _ _ _ _ _ _ _ Hrq)
      as (Hmethod & Htimeout & _ & _ & _ & Hheaders).
    destruct (loop_events str_upper srv _ _ _ _ _ _ _ rq0 Hrq _ _ _ _ _ _ Hrun)
      as (evs & Hlog & Hevs).
    exists evs. split; [done|]. intros rq Hin. rewrite (Hevs rq Hin).
    split; [done|]. split; [done|].
    exists (merged_headers self hdrs_arg). split; [done|]. intros k.
    unfold merged_headers.
    destruct hdrs_arg as [[|kv h]|]; cbn [present default]; try done.
    by apply dict_get_update.
  - destruct (loop_unencodable str_upper srv self method url query body files
                _ e (Z.to_nat (retries self + 1)) 1%Z None l Hrq) as [e' He'].
    rewrite He' in Hrun. injection Hrun as <- <-.
    exists []. rewrite app_nil_r. split; [done|].
    intros rq Hin. by apply elem_of_nil in Hin.
Qed.

(** ** The schema loader in general *)

(** The loader by cases on the two answers. *)
Lemma load_schema_cases json_loads srv self l :
  _load_openapi_schema json_loads srv self l =
  match primary_doc (srv (requests_in l) (json_request self)) with
  | Some doc => (Return doc, l ++ [Requested (json_request self)])
  | None =>
      match secondary_doc json_loads
              (srv (S (requests_in l)) (yaml_request self)) with
      | Some doc =>
          (Return doc,
           l ++ [Requested (json_request self); Requested (yaml_request self)])
      | None =>
          (Raise (LegalAPIError
                    (SchemaLoadFailed (base_url self ++ lit "/openapi.json")
                                      (base_url self ++ lit "/openapi.yaml"))),
           l ++ [Requested (json_request self); Requested (yaml_request self)])
      end
  end.
Proof.
  unfold _load_openapi_schema.
  fold (json_request self). fold (yaml_request self).
  unfold bind at 1. unfold try_except at 1.
  unfold bind at 1. unfold session_request at 1.
  unfold primary_doc.
  assert (forall doc0 : option json,
    (let* second :=
       try_except
         (let* r := session_request srv (yaml_request self) in
          if (status_code r =? 200)%Z then
            try_except
              (match json_loads (text r) with
               | Some doc => ret (Some doc)
               | None => raise JSONDecodeError
               end)
              (fun e =>
                 match e with
                 | JSONDecodeError => Some (raise (LegalAPIError SchemaIsYaml))
                 | _ => None
                 end)
          else ret None)
         except_Exception_pass in
     match second with
     | Some doc => ret doc
     | None =>
         raise (LegalAPIError
                  (SchemaLoadFailed (base_url self ++ lit "/openapi.json")
                                    (base_url self ++ lit "/openapi.yaml")))
     end) (l ++ [Requested (json_request self)])
    = match secondary_doc json_loads
              (srv (S (requests_in l)) (yaml_request self)) with
      | Some doc =>
          (Return doc,
           l ++ [Requested (json_request self); Requested (yaml_request self)])
      | None =>
          (Raise (LegalAPIError
                    (SchemaLoadFailed (base_url self ++ lit "/openapi.json")
                                      (base_url self ++ lit "/openapi.yaml"))),
           l ++ [Requested (json_request self); Requested (yaml_request self)])
      end) as Hsecond.
  { intros _. unfold bind, try_except, session_request, secondary_doc.
    rewrite requests_in_request.
    destruct (srv (S (requests_in l)) (yaml_request self)) as [r|ne|detail];
      unfold except_Exception_pass, ret, raise; rewrite <- ?app_assoc; try done.
    destruct (status_code r =? 200)%Z; [|done].
    by destruct (json_loads (text r)). }
  destruct (srv (requests_in l) (json_request self)) as [r|ne|detail];
    unfold except_Exception_pass, ret, raise.
  - destruct (status_code r =? 200)%Z.
    + destruct (resp_json r); [done|]. apply (Hsecond None).
    + apply (Hsecond None).
  - apply (Hsecond None).
  - apply (Hsecond None).
Qed.

Lemma primary_fails_no_doc o : primary_fails o -> primary_doc o = None.
Proof.
  destruct o as [r|ne|detail]; try done. simpl.
  intros [Hstatus| ->].
  - by apply Z.eqb_neq in Hstatus as ->.
  - by destruct (status_code r =? 200)%Z.
Qed.

(** X5. When the primary location answers 200 with a body that decodes,
    the loader returns that document after this one request: the
    secondary location is not contacted, whatever it would answer. *)
Theorem load_schema_primary_short_circuits json_loads srv self l r doc :
  srv (requests_in l) (json_request self) = Responds r ->
  status_code r = 200%Z ->
  resp_json r = Some doc ->
  _load_openapi_schema json_loads srv self l
  = (Return doc,
     l ++ [Requested (get_kwargs self (base_url self ++ lit "/openapi.json")
                                 None)]).
Proof.
  intros Hsrv Hstatus Hdoc. rewrite load_schema_cases.
  unfold primary_doc. by rewrite Hsrv, Hstatus, Hdoc.
Qed.

(** X6. When the primary location fails (an exception, a status other
    than 200, or a body that does not decode) and the secondary location
    answers 200 with a text [json.loads] decodes, the loader returns that
    document; the second request asks for YAML in its [Accept] header. *)
Theorem load_schema_falls_back json_loads srv self l r2 doc :
  primary_fails (srv (requests_in l) (json_request self)) ->
  srv (S (requests_in l)) (yaml_request self) = Responds r2 ->
  status_code r2 = 200%Z ->
  json_loads (text r2) = Some doc ->
  _load_openapi_schema json_loads srv self l
  = (Return doc,
     l ++ [Requested (get_kwargs self (base_url self ++ lit "/openapi.json")
                                 None);
           Requested (get_kwargs self (base_url self ++ lit "/openapi.yaml")
                        (Some [(lit "Accept", lit "application/yaml, */*")]))]).
Proof.
  intros Hfirst Hsrv Hstatus Hdoc. rewrite load_schema_cases.
  rewrite (primary_fails_no_doc _ Hfirst).
  unfold secondary_doc. by rewrite Hsrv, Hstatus, Hdoc.
Qed.

(** X7. Whatever the server does, the loader returns a document or
    raises [SchemaLoadFailed] naming both locations, and nothing else: no
    exception of the transport or of the decoders escapes it.  It makes
    one request or two, never more, and never sleeps; it raises only
    after both requests. *)
Theorem load_schema_raises_only_load_failure json_loads srv self l :
  exists r l',
    _load_openapi_schema json_loads srv self l = (r, l') /\
    ((exists doc, r = Return doc /\
        (l' = l ++ [Requested (json_request self)] \/
         l' = l ++ [Requested (json_request self);
                    Requested (yaml_request self)])) \/
     (r = Raise (LegalAPIError
                   (SchemaLoadFailed (base_url self ++ lit "/openapi.json")
                                     (base_url self ++ lit "/openapi.yaml"))) /\
      l' = l ++ [Requested (json_request self); Requested (yaml_request self)])).
Proof.
  rewrite load_schema_cases.
  destruct (primary_doc _) as [doc|].
  - eexists _, _. split; [done|]. left. exists doc. auto.
  - destruct (secondary_doc _ _) as [doc|]; eexists _, _; (split; [done|]).
    + left. exists doc. auto.
    + by right.
Qed.

(** ** The catalog builder in general *)

Lemma dict_set_present_keys {V} k (v : V) (d : Dict.t V) :
  k ∈ Dict.keys d -> Dict.keys (Dict.set k v d) = Dict.keys d.
Proof.
  induction d as [|[k' v'] d IH]; [by intros ?%elem_of_nil|].
  cbn [Dict.keys List.map fst Dict.set]. intros Hin.
  destruct (bool_decide (k = k')) eqn:Hk; [done|].
  apply bool_decide_eq_false in Hk.
  apply elem_of_cons in Hin as [?|Hin]; [done|].
  cbn [List.map fst]. f_equal. by apply IH.
Qed.

Lemma dict_set_wf {V} k (v : V) (d : Dict.t V) :
  Dict.wf d -> Dict.wf (Dict.set k v d).
Proof.
  unfold Dict.wf. intros Hwf.
  destruct (decide (k ∈ Dict.keys d)) as [Hin|Hout].
  - by rewrite dict_set_present_keys.
  - rewrite dict_set_fresh, keys_app by done.
    apply NoDup_app. repeat split; [done| |apply NoDup_singleton].
    intros x Hx ->%list_elem_of_singleton. done.
Qed.

Lemma dict_set_elem {V} k (v : V) (d : Dict.t V) k' v' :
  (k', v') ∈ Dict.set k v d -> (k' = k /\ v' = v) \/ (k', v') ∈ d.
Proof.
  induction d as [|[k0 v0] d IH]; cbn [Dict.set].
  - intros [= -> ->]%list_elem_of_singleton. by left.
  - destruct (bool_decide (k = k0)) eqn:Hk.
    + apply bool_decide_eq_true in Hk as ->.
      intros [[= -> ->]|Hin]%elem_of_cons; [by left | right; by right].
    + intros [[= -> ->]|Hin]%elem_of_cons; [right; left|].
      destruct (IH Hin) as [?|?]; [by left | right; by right].
Qed.

Section BuilderInvariants.
Variables (str_lower str_upper : pystr -> pystr).
Variable known_paths : list pystr.

(** What every stored operation satisfies. *)
#[local] Abbreviation stored_well ops :=
  (Dict.wf ops /\
   forall k op, (k, op) ∈ ops ->
     operation_id op = k /\
     (exists m, method op = str_upper m) /\
     path op ∈ known_paths).

Lemma add_methods_stored_well path ms (ops ops' : catalog) :
  path ∈ known_paths ->
  stored_well ops ->
  add_methods str_lower str_upper path ms ops = Return ops' ->
  stored_well ops'.
Proof.
  intros Hpath. revert ops.
  induction ms as [|[m v] ms IH]; intros ops Hops; cbn [add_methods].
  - by intros [= <-].
  - destruct v as [|b|q|s|js|spec]; try by apply IH.
    destruct (op_id_of str_lower m path spec) as [id|e]; [|done].
    apply IH. destruct Hops as [Hwf Hall]. split; [by apply dict_set_wf|].
    intros k op [[-> ->]|Hin]%dict_set_elem; [|by apply Hall].
    cbn. eauto.
Qed.

Lemma add_paths_stored_well paths (ops ops' : catalog) :
  (forall p, p ∈ Dict.keys paths -> p ∈ known_paths) ->
  stored_well ops ->
  add_paths str_lower str_upper paths ops = Return ops' ->
  stored_well ops'.
Proof.
  revert ops. induction paths as [|[p ms] paths IH]; intros ops Hknown Hops;
    cbn [add_paths].
  - by intros [= <-].
  - destruct (items_of (or_empty (Some ms))) as [items|e]; [|done].
    destruct (add_methods str_lower str_upper p items ops) as [ops1|e] eqn:Hadd;
      [|done].
    apply IH.
    + intros p' Hp'. apply Hknown. by right.
    + apply (add_methods_stored_well p items ops); [|done|done].
      apply Hknown. left.
Qed.

End BuilderInvariants.

Lemma items_of_paths top ps :
  items_of (or_empty (Dict.get (lit "paths") top)) = Return ps ->
  ps = schema_paths (JDict top).
Proof.
  unfold or_empty. cbn [schema_paths].
  destruct (Dict.get (lit "paths") top) as [v|]; [|by intros [= <-]].
  destruct v as [|b|q|s|js|d]; cbn [truthy].
  - by intros [= <-].
  - destruct b; cbn [items_of]; congruence.
  - destruct (negb _); cbn [items_of]; congruence.
  - destruct (negb _); cbn [items_of]; congruence.
  - destruct js; cbn [items_of]; congruence.
  - destruct d; cbn [items_of]; congruence.
Qed.

(** What a returned catalog took from the loops. *)
Lemma build_index_stored_well str_lower str_upper schema ops :
  _build_operations_index str_lower str_upper schema = Return ops ->
  ops <> [] /\
  Dict.wf ops /\
  forall k op, (k, op) ∈ ops ->
    operation_id op = k /\
    (exists m, method op = str_upper m) /\
    path op ∈ Dict.keys (schema_paths schema).
Proof.
  unfold _build_operations_index.
  destruct schema as [|b|q|s|js|top]; try done.
  destruct (items_of (or_empty (Dict.get (lit "paths") top))) as [ps|e] eqn:Hitems;
    [|done].
  apply items_of_paths in Hitems as ->.
  destruct (add_paths str_lower str_upper _ []) as [ops0|e] eqn:Hadd; [|done].
  apply (add_paths_stored_well str_lower str_upper
           (Dict.keys (schema_paths (JDict top)))) in Hadd as [Hwf Hall];
    [|done|].
  - destruct ops0 as [|kv ops0]; [done|]. by intros [= <-].
  - split; [constructor|]. intros k op Hin. by apply elem_of_nil in Hin.
Qed.

(** X8. Every catalog the builder returns, for any document at all, is
    non-empty, has unique keys, and stores each operation under its own
    [operation_id], with an upper-cased method and a path of the
    document. *)
Theorem built_catalog_consistent str_lower str_upper schema ops :
  _build_operations_index str_lower str_upper schema = Return ops ->
  ops <> [] /\
  catalog_consistent ops /\
  forall k op, (k, op) ∈ ops ->
    (exists m, method op = str_upper m) /\
    path op ∈ Dict.keys (schema_paths schema).
Proof.
  intros Hbuild.
  destruct (build_index_stored_well _ _ _ _ Hbuild) as (Hne & Hwf & Hall).
  split; [done|]. split; [split; [done|]|].
  - intros k op Hin. by destruct (Hall k op Hin) as (? & _).
  - intros k op Hin. by destruct (Hall k op Hin) as (_ & ? & ?).
Qed.

Section LastWriteWins.
Variables (str_lower str_upper : pystr -> pystr).

Lemma last_with_id_None id es :
  last_with_id str_lower id es = None <-> id ∉ List.map (entry_id str_lower) es.
Proof.
  induction es as [|e es IH]; cbn [last_with_id List.map].
  - split; [intros _; apply not_elem_of_nil | done].
  - rewrite not_elem_of_cons.
    destruct (last_with_id str_lower id es) as [e'|].
    + split; [done|]. intros [_ Hes]. by apply IH in Hes.
    + case_bool_decide as Hid.
      * split; [done|]. intros [Hne _]. by destruct Hne.
      * split; [|done]. intros _. split; [congruence | by apply IH].
Qed.

Lemma get_fold_store id es (ops : catalog) :
  Dict.get id (fold_left (store str_lower str_upper) es ops)
  = match last_with_id str_lower id es with
    | Some e => Some (operation_of str_lower str_upper e)
    | None => Dict.get id ops
    end.
Proof.
  revert ops. induction es as [|e es IH]; intros ops; [done|].
  cbn [fold_left last_with_id]. rewrite IH.
  destruct (last_with_id str_lower id es) as [e'|]; [done|].
  destruct e as [[p m] spec]. unfold store. rewrite dict_get_set.
  case_bool_decide as H1; case_bool_decide as H2; try done; congruence.
Qed.

Lemma fold_store_wf es (ops : catalog) :
  Dict.wf ops -> Dict.wf (fold_left (store str_lower str_upper) es ops).
Proof.
  revert ops. induction es as [|e es IH]; intros ops Hwf; [done|].
  cbn [fold_left]. apply IH. destruct e as [[p m] spec]. by apply dict_set_wf.
Qed.

(** X9. Last write wins: for a schema document, looking an id up in the
    built catalog gives the operation of the last entry, in document
    order, that has this id, and nothing for an id no entry has; the
    catalog has as many operations as the entries have distinct ids. *)
Theorem colliding_ids_last_entry_wins schema ops :
  schema_shaped schema = true ->
  _build_operations_index str_lower str_upper schema = Return ops ->
  let entries := operation_entries (schema_paths schema) in
  (forall id,
     Dict.get id ops
     = option_map (operation_of str_lower str_upper)
                  (last_with_id str_lower id entries)) /\
  Dict.keys ops ≡ₚ remove_dups (List.map (entry_id str_lower) entries) /\
  length ops = length (remove_dups (List.map (entry_id str_lower) entries)).
Proof.
  intros Hshape Hbuild entries.
  destruct (schema_shaped_paths schema Hshape) as (top & -> & Hitems & _ & Hms).
  unfold _build_operations_index in Hbuild. rewrite Hitems in Hbuild.
  rewrite (add_paths_shaped str_lower str_upper _ _ Hms) in Hbuild.
  fold entries in Hbuild.
  assert (ops = fold_left (store str_lower str_upper) entries []) as ->.
  { destruct (fold_left (store str_lower str_upper) entries []);
      [done | by injection Hbuild]. }
  clear Hbuild.
  assert (forall id,
    Dict.get id (fold_left (store str_lower str_upper) entries [])
    = option_map (operation_of str_lower str_upper)
                 (last_with_id str_lower id entries)) as Hget.
  { intros id. rewrite get_fold_store.
    by destruct (last_with_id str_lower id entries). }
  assert (Dict.keys (fold_left (store str_lower str_upper) entries [])
          ≡ₚ remove_dups (List.map (entry_id str_lower) entries)) as Hperm.
  { apply NoDup_Permutation.
    - apply (fold_store_wf entries []). constructor.
    - apply NoDup_remove_dups.
    - intros id. rewrite elem_of_remove_dups.
      destruct (decide (id ∈ List.map (entry_id str_lower) entries)) as [Hin|Hout].
      + split; [done|]. intros _.
        destruct (decide (id ∈ Dict.keys
                    (fold_left (store str_lower str_upper) entries [])))
          as [|Hno]; [done|].
        apply dict_get_None in Hno. rewrite Hget in Hno.
        destruct (last_with_id str_lower id entries) eqn:Hlast; [done|].
        by apply last_with_id_None in Hlast.
      + split; [|done]. intros Hkey. exfalso.
        apply last_with_id_None in Hout.
        specialize (Hget id). rewrite Hout in Hget. cbn in Hget.
        by apply dict_get_None in Hget. }
  split; [done|]. split; [done|].
  rewrite <- (Permutation_length Hperm). unfold Dict.keys.
  by rewrite List.length_map.
Qed.

End LastWriteWins.

Lemma lstrip_app chars a b :
  PyStr.lstrip chars (a ++ b)
  = match PyStr.lstrip chars a with
    | [] => PyStr.lstrip chars b
    | c :: a' => (c :: a') ++ b
    end.
Proof.
  induction a as [|x a IH]; [done|].
  cbn [app PyStr.lstrip]. by destruct (PyStr.mem x chars).
Qed.

Lemma strip_snoc chars p c :
  PyStr.mem c chars = true ->
  PyStr.strip chars (p ++ [c]) = PyStr.strip chars p.
Proof.
  intros Hc. unfold PyStr.strip, PyStr.rstrip. rewrite lstrip_app.
  destruct (PyStr.lstrip chars p) as [|x q] eqn:Hp.
  - cbn [PyStr.lstrip]. by rewrite Hc.
  - rewrite rev_app_distr. cbn [rev app PyStr.lstrip]. by rewrite Hc.
Qed.

(** X10. Slashes at either end of a path do not show in its synthetic
    id.  So two paths that differ by a trailing slash, under the same
    method and without [operationId], collide: the builder returns one
    operation for the two entries, the one of the later path. *)
Theorem trailing_slash_paths_collide str_lower str_upper path method :
  synthetic_id str_lower method (lit "/" ++ path)
    = synthetic_id str_lower method path /\
  synthetic_id str_lower method (path ++ lit "/")
    = synthetic_id str_lower method path /\
  _build_operations_index str_lower str_upper
    (JDict [(lit "paths",
             JDict [(path, JDict [(method, JDict [])]);
                    (path ++ lit "/", JDict [(method, JDict [])])])])
  = Return [(synthetic_id str_lower method path,
             mkOperation (str_upper method) (path ++ lit "/")
                         (synthetic_id str_lower method path))].
Proof.
  assert (synthetic_id str_lower method (path ++ lit "/")
          = synthetic_id str_lower method path) as Htrail.
  { unfold synthetic_id. change (path ++ lit "/") with (path ++ [47%N]).
    by rewrite (strip_snoc (lit "/") path 47%N). }
  split; [done|]. split; [done|].
  unfold _build_operations_index.
  change (Dict.get (lit "paths") _)
    with (Some (JDict [(path, JDict [(method, JDict [])]);
                       (path ++ lit "/", JDict [(method, JDict [])])])).
  cbn [or_empty truthy items_of add_paths add_methods].
  unfold op_id_of. cbn [Dict.get]. rewrite Htrail.
  cbn [Dict.set]. by rewrite bool_decide_eq_true_2.
Qed.

(** ** Construction *)

Lemma lstrip_head chars s c rest :
  PyStr.lstrip chars s = c :: rest -> PyStr.mem c chars = false.
Proof.
  induction s as [|x s IH]; [done|]. cbn [PyStr.lstrip].
  destruct (PyStr.mem x chars) eqn:Hx; [done|]. by intros [= <- _].
Qed.

Lemma rstrip_last chars s c :
  last (PyStr.rstrip chars s) = Some c -> PyStr.mem c chars = false.
Proof.
  unfold PyStr.rstrip.
  destruct (PyStr.lstrip chars (rev s)) as [|x rest] eqn:Hstrip; [done|].
  cbn [rev]. rewrite last_snoc. intros [= <-]. by apply lstrip_head in Hstrip.
Qed.

(** What [__init__] assigns before it returns. *)
Lemma init_returns str_lower str_upper json_loads srv default_headers token
    base timeout_arg retries_arg backoff_arg l c l' :
  __init__ str_lower str_upper json_loads srv default_headers token base
           timeout_arg retries_arg backoff_arg l = (Return c, l') ->
  base_url c = PyStr.rstrip (lit "/") base /\
  timeout c = timeout_arg /\ retries c = retries_arg /\ backoff c = backoff_arg /\
  session_headers c
    = Dict.update default_headers
        [(lit "Authorization", lit "Bearer " ++ token);
         (lit "Accept", lit "application/json, */*");
         (lit "User-Agent", lit "LegalAPI-Client/1.0")] /\
  _load_openapi_schema json_loads srv c l = (Return (_schema c), l') /\
  _build_operations_index str_lower str_upper (_schema c)
    = Return (_operations c) /\
  (l' = l ++ [Requested (json_request c)] \/
   l' = l ++ [Requested (json_request c); Requested (yaml_request c)]).
Proof.
  unfold __init__, bind.
  set (self := {| base_url := PyStr.rstrip (lit "/") base;
                  timeout := timeout_arg; retries := retries_arg;
                  backoff := backoff_arg; session_headers := _;
                  _schema := JNull; _operations := [] |}).
  destruct (_load_openapi_schema json_loads srv self l) as [[doc|e] l1]
    eqn:Hload; [|done].
  unfold lift, ret.
  destruct (_build_operations_index str_lower str_upper doc) as [ops|e] eqn:Hb;
    [|done].
  intros [= <- <-].
  cbn [base_url timeout retries backoff session_headers _schema _operations].
  do 5 (split; [reflexivity|]). split; [exact Hload|]. split; [exact Hb|].
  rewrite load_schema_cases in Hload.
  destruct (primary_doc _) as [d|];
    [|destruct (secondary_doc _ _) as [d|]; [|done]];
    injection Hload as _ <-; first [by left | by right].
Qed.

(** X11. A client that [__init__] returns has the base URL without
    trailing slashes, the settings as given, the bearer token and the two
    fixed headers over the defaults of the session; its schema is the
    document the loader returns on that run, which is the decoded answer
    of the primary location when that answers 200 with JSON and the one
    of the secondary location otherwise; its catalog is what the builder
    makes of that schema; the construction made one or two requests, the
    loader's. *)
Theorem init_establishes_client str_lower str_upper json_loads srv
    default_headers token base timeout_arg retries_arg backoff_arg l c l' :
  __init__ str_lower str_upper json_loads srv default_headers token base
           timeout_arg retries_arg backoff_arg l = (Return c, l') ->
  base_url c = PyStr.rstrip (lit "/") base /\
  last (base_url c) <> Some 47%N /\
  timeout c = timeout_arg /\ retries c = retries_arg /\ backoff c = backoff_arg /\
  Dict.get (lit "Authorization") (session_headers c)
    = Some (lit "Bearer " ++ token) /\
  Dict.get (lit "Accept") (session_headers c)
    = Some (lit "application/json, */*") /\
  Dict.get (lit "User-Agent") (session_headers c)
    = Some (lit "LegalAPI-Client/1.0") /\
  (forall k, k ∉ [lit "Authorization"; lit "Accept"; lit "User-Agent"] ->
     Dict.get k (session_headers c) = Dict.get k default_headers) /\
  _load_openapi_schema json_loads srv c l = (Return (_schema c), l') /\
  (match primary_doc (srv (requests_in l) (json_request c)) with
   | Some doc => _schema c = doc
   | None =>
       secondary_doc json_loads (srv (S (requests_in l)) (yaml_request c))
       = Some (_schema c)
   end) /\
  _build_operations_index str_lower str_upper (_schema c)
    = Return (_operations c) /\
  _operations c <> [] /\
  catalog_consistent (_operations c) /\
  (l' = l ++ [Requested (json_request c)] \/
   l' = l ++ [Requested (json_request c); Requested (yaml_request c)]).
Proof.
  intros (Hbase & Htimeout & Hretries & Hbackoff & Hheaders & Hload & Hbuild
          & Hlog)%init_returns.
  destruct (build_index_stored_well _ _ _ _ Hbuild) as (Hne & Hwf & Hall).
  assert (Dict.wf [(lit "Authorization", lit "Bearer " ++ token);
                   (lit "Accept", lit "application/json, */*");
                   (lit "User-Agent", lit "LegalAPI-Client/1.0")]) as Hfixed.
  { unfold Dict.wf. cbn. compute_done. }
  rewrite Hheaders. repeat split; try done.
  - rewrite Hbase. intros Hlast. by apply rstrip_last in Hlast.
  - by rewrite dict_get_update.
  - by rewrite dict_get_update.
  - by rewrite dict_get_update.
  - intros k Hk. rewrite dict_get_update by done. cbn [Dict.get].
    rewrite !not_elem_of_cons in Hk. destruct Hk as (? & ? & ? & _).
    by rewrite !bool_decide_eq_false_2.
  - rewrite load_schema_cases in Hload.
    destruct (primary_doc _) as [doc|]; [by injection Hload as ->|].
    destruct (secondary_doc _ _) as [doc|]; [by injection Hload as ->|done].
  - intros k op Hin. by destruct (Hall k op Hin) as (? & _).
Qed.

(** ** The resolver beyond the strict pass *)

Lemma find_split {A} (f : A -> bool) (l : list A) x :
  List.find f l = Some x ->
  exists pre post,
    l = pre ++ x :: post /\ f x = true /\ forall y, y ∈ pre -> f y = false.
Proof.
  induction l as [|a l IH]; [done|]. cbn [List.find].
  destruct (f a) eqn:Ha.
  - intros [= ->]. exists [], l. repeat split; [done|].
    intros y Hy. by apply elem_of_nil in Hy.
  - intros (pre & post & -> & Hx & Hpre)%IH.
    exists (a :: pre), post. repeat split; [done|].
    intros y [->|Hy]%elem_of_cons; [done | by apply Hpre].
Qed.

Lemma find_none {A} (f : A -> bool) (l : list A) :
  List.find f l = None <-> forall y, y ∈ l -> f y = false.
Proof.
  induction l as [|a l IH]; cbn [List.find].
  - split; [|done]. intros _ y Hy. by apply elem_of_nil in Hy.
  - destruct (f a) eqn:Ha.
    + split; [done|]. intros Hall. specialize (Hall a). rewrite Ha in Hall.
      discriminate Hall. left.
    + rewrite IH. split.
      * intros Hall y [->|Hy]%elem_of_cons; auto.
      * intros Hall y Hy. apply Hall. by right.
Qed.

Section ResolverMore.
Variable str_lower : pystr -> pystr.

Lemma matches_any_spec keywords op :
  matches_any str_lower keywords op = true <-> any_match str_lower keywords op.
Proof.
  unfold matches_any, any_match. rewrite List.existsb_exists. split.
  - intros (k & [Hk Hne]%filter_In & Hc). exists k.
    split; [by apply list_elem_of_In|]. split; [by apply nonempty_spec|].
    by apply contains_spec.
  - intros (k & Hk & Hne & Hc). exists k. split.
    + apply filter_In. split; [by apply list_elem_of_In | by apply nonempty_spec].
    + by apply contains_spec.
Qed.

Lemma no_candidates keywords (ops : list Operation) :
  (forall op, op ∈ ops -> ~ full_match str_lower keywords op) ->
  List.filter (matches_all str_lower keywords) ops = [].
Proof.
  intros Hnone. induction ops as [|op ops IH]; [done|]. cbn [List.filter].
  destruct (matches_all str_lower keywords op) eqn:Hop.
  - apply matches_all_spec in Hop. destruct (Hnone op); [left | done].
  - apply IH. intros op' Hop'. apply Hnone. by right.
Qed.

(** Whatever [_find_op] returns is an operation of the catalog. *)
Lemma find_op_in_catalog self keywords r :
  _find_op str_lower self keywords = Return r ->
  r ∈ Dict.values (_operations self).
Proof.
  unfold _find_op.
  destruct (sort_by op_key key_leb _) as [|first rest] eqn:Hsort.
  - destruct (List.find _ _) as [op|] eqn:Hfind; [|done].
    intros [= <-]. apply find_split in Hfind as (pre & post & -> & _).
    apply elem_of_app. right. left.
  - intros [= <-].
    apply (sort_by_head op_key key_leb key_leb_total key_leb_trans) in Hsort
      as [Hin _].
    by apply candidates_spec in Hin as [? _].
Qed.

(** X12. The loose fallback: when no operation matches all keywords and
    some operation matches one of them, the resolver returns the first
    operation, in catalog order, that matches some keyword. *)
Theorem find_op_loose_fallback_first_match self keywords :
  (forall op, op ∈ Dict.values (_operations self) ->
     ~ full_match str_lower keywords op) ->
  (exists op, op ∈ Dict.values (_operations self) /\
     any_match str_lower keywords op) ->
  exists r earlier later,
    _find_op str_lower self keywords = Return r /\
    Dict.values (_operations self) = earlier ++ r :: later /\
    any_match str_lower keywords r /\
    forall op, op ∈ earlier -> ~ any_match str_lower keywords op.
Proof.
  intros Hnone (op & Hop & Hany). unfold _find_op.
  rewrite (no_candidates _ _ Hnone). cbn [sort_by].
  destruct (List.find _ _) as [r|] eqn:Hfind.
  - apply find_split in Hfind as (pre & post & Hsplit & Hr & Hpre).
    exists r, pre, post. split; [done|]. split; [done|].
    split; [by apply matches_any_spec|].
    intros o Ho Hmatch. apply matches_any_spec in Hmatch.
    by rewrite (Hpre o Ho) in Hmatch.
  - apply matches_any_spec in Hany.
    rewrite find_none in Hfind. by rewrite (Hfind op Hop) in Hany.
Qed.

(** X13. The resolver raises exactly when no operation of the catalog
    matches all keywords or any keyword; the error then carries the
    keywords and, as tips, the result of [list_efrsb_methods].  It raises
    nothing else. *)
Theorem find_op_raises_iff_nothing_matches self keywords :
  ((forall op, op ∈ Dict.values (_operations self) ->
      ~ full_match str_lower keywords op /\ ~ any_match str_lower keywords op)
   <->
   _find_op str_lower self keywords
   = Raise (LegalAPIError
              (NoMatchingOperation keywords (list_efrsb_methods str_lower self))))
  /\
  (forall e,
     _find_op str_lower self keywords = Raise e ->
     e = LegalAPIError
           (NoMatchingOperation keywords (list_efrsb_methods str_lower self))).
Proof.
  split; [split|].
  - intros Hnone. unfold _find_op.
    rewrite no_candidates by (intros op Hop; by apply Hnone). cbn [sort_by].
    destruct (List.find _ _) as [r|] eqn:Hfind; [|done].
    apply find_split in Hfind as (pre & post & Hsplit & Hr & _).
    apply matches_any_spec in Hr. destruct (Hnone r) as [_ Hno]; [|done].
    rewrite Hsplit. apply elem_of_app. right. left.
  - unfold _find_op.
    destruct (sort_by op_key key_leb _) as [|first rest] eqn:Hsort; [|done].
    destruct (List.find _ _) as [r|] eqn:Hfind; [done|]. intros _ op Hop.
    apply sort_by_nil in Hsort. split.
    + intros Hfull.
      assert (op ∈ List.filter (matches_all str_lower keywords)
                               (Dict.values (_operations self))) as Hin
        by (by apply candidates_spec).
      rewrite Hsort in Hin. by apply elem_of_nil in Hin.
    + intros Hany%matches_any_spec.
      rewrite find_none in Hfind. by rewrite (Hfind op Hop) in Hany.
  - intros e. unfold _find_op.
    destruct (sort_by op_key key_leb _); [|done].
    destruct (List.find _ _); [done|]. by intros [= <-].
Qed.

Lemma substring_prefix a b hay : substring (a ++ b) hay -> substring a hay.
Proof.
  intros (pre & post & ->). exists pre, (b ++ post). by rewrite <- app_assoc.
Qed.

(** X14. [list_efrsb_methods] returns, in catalog order, exactly the
    operations whose lower-cased [id + " " + path] contains one of
    [efrsb], [bankrupt], [debtor], [notice], [case], [insolv]; the
    seventh hint word, [bankruptcy], adds nothing. *)
Theorem efrsb_methods_listed_iff_hint self :
  sublist (list_efrsb_methods str_lower self) (Dict.values (_operations self)) /\
  forall op,
    op ∈ list_efrsb_methods str_lower self <->
    op ∈ Dict.values (_operations self) /\
    exists hint, hint ∈ efrsb_hints_reduced /\
      substring hint (str_lower (operation_id op ++ lit " " ++ path op)).
Proof.
  unfold list_efrsb_methods. split.
  - induction (Dict.values (_operations self)) as [|op ops IH]; [constructor|].
    cbn [List.filter]. destruct (existsb _ efrsb_hints); by constructor.
  - intros op. rewrite list_elem_of_In, filter_In, <- list_elem_of_In.
    rewrite List.existsb_exists.
    split; intros [Hop (hint & Hhint & Hc)]; (split; [done|]).
    + apply contains_spec in Hc. apply list_elem_of_In in Hhint.
      unfold efrsb_hints in Hhint.
      repeat (apply elem_of_cons in Hhint as [->|Hhint]);
        try (eexists; split; [|exact Hc];
             solve [unfold efrsb_hints_reduced; repeat first [by left | right]]).
      * exists (lit "bankrupt"). split; [right; left|].
        apply (substring_prefix (lit "bankrupt") (lit "cy")). exact Hc.
      * by apply elem_of_nil in Hhint.
    + exists hint. split; [|by apply contains_spec].
      apply list_elem_of_In. unfold efrsb_hints_reduced, efrsb_hints in *.
      repeat (apply elem_of_cons in Hhint as [->|Hhint]);
        try solve [repeat first [by left | right]].
      by apply elem_of_nil in Hhint.
Qed.

End ResolverMore.

(** ** Listing, attribute sugar and the convenience methods *)

Lemma dict_get_elem {V} k (v : V) (d : Dict.t V) :
  Dict.wf d -> (k, v) ∈ d -> Dict.get k d = Some v.
Proof.
  unfold Dict.wf. induction d as [|[k' v'] d IH]; [by intros _ ?%elem_of_nil|].
  cbn [Dict.keys List.map fst Dict.get].
  intros [Hk' Hd]%NoDup_cons [[= -> ->]|Hin]%elem_of_cons.
  - by rewrite bool_decide_eq_true_2.
  - rewrite bool_decide_eq_false_2; [by apply IH|].
    intros ->. apply Hk'. apply list_elem_of_In, in_map_iff.
    exists (k', v). split; [done | by apply list_elem_of_In].
Qed.

(** X15. [client.name] for a name that ordinary attribute lookup finds
    (an attribute that [__init__] assigns, a name of the class body, a
    name every object has) is that attribute, whether or not the catalog
    has an operation of that id: [__getattr__] is not consulted.  Among
    the other names, the ids [list_endpoints] returns are exactly those
    the attribute sugar resolves: for a listed id [client.name] is the
    caller that is [call] with that id, the operation stored under it
    being found; for any other name it raises [AttributeError], and
    [call] raises [UnknownOperationId] before any request. *)
Theorem attribute_sugar_resolves_unshadowed_ids str_upper srv
    object_attributes self name :
  (name ∈ instance_attributes ++ class_attributes \/
   object_attributes name = true ->
   getattr str_upper srv object_attributes self name = Return Ordinary) /\
  (name ∉ instance_attributes ++ class_attributes ->
   object_attributes name = false ->
   (name ∈ list_endpoints self ->
    exists op,
      Dict.get name (_operations self) = Some op /\
      getattr str_upper srv object_attributes self name
      = Return (Caller (call str_upper srv self name))) /\
   (name ∉ list_endpoints self ->
    getattr str_upper srv object_attributes self name = Raise AttributeError /\
    forall args l,
      call str_upper srv self name args l
      = (Raise (LegalAPIError (UnknownOperationId name)), l))).
Proof.
  unfold getattr, __getattr__, Dict.contains, call. split.
  - intros [Hown|Hobject].
    + by rewrite bool_decide_eq_true_2.
    + rewrite Hobject. by rewrite orb_true_r.
  - intros Hown Hobject.
    rewrite bool_decide_eq_false_2, Hobject by done. cbn [orb]. split.
    + rewrite list_endpoints_Permutation.
      intros (op & Hget & _)%dict_get_Some. exists op. by rewrite Hget.
    + rewrite list_endpoints_Permutation. intros Hout%dict_get_None.
      by rewrite Hout.
Qed.

(** An operation whose id is the name of a method cannot be reached
    through the attribute sugar, though [call] executes it. *)
Example operation_named_like_a_method_is_shadowed :
  let api :=
    {| base_url := lit "https://legal-api.sirotinsky.com";
       timeout := 30; retries := 3; backoff := 8 # 10;
       session_headers := demo_headers;
       _schema := JNull;
       _operations :=
         [(lit "call", mkOperation (lit "GET") (lit "/call") (lit "call"))] |} in
  list_endpoints api = [lit "call"] /\
  getattr PyStr.ascii_upper (always (Responds demo_ok)) (fun _ => false)
          api (lit "call") = Return Ordinary /\
  __getattr__ PyStr.ascii_upper (always (Responds demo_ok)) api (lit "call")
  = Return (call PyStr.ascii_upper (always (Responds demo_ok)) api (lit "call")) /\
  call PyStr.ascii_upper (always (Responds demo_ok)) api (lit "call") no_args []
  = (Return (VJson (JDict [])),
     [Requested (demo_request (lit "https://legal-api.sirotinsky.com/call"))]).
Proof. repeat split; reflexivity. Qed.

Lemma values_elem (ops : catalog) r :
  r ∈ Dict.values ops -> exists k, (k, r) ∈ ops.
Proof.
  unfold Dict.values. intros Hin%list_elem_of_In%in_map_iff.
  destruct Hin as ([k v] & <- & Hin). exists k. by apply list_elem_of_In.
Qed.

(** An operation the resolver returns is found by [call] under its id. *)
Lemma resolved_op_lookup str_lower self keywords r :
  catalog_consistent (_operations self) ->
  _find_op str_lower self keywords = Return r ->
  Dict.get (operation_id r) (_operations self) = Some r.
Proof.
  intros [Hwf Hids] Hfind. apply find_op_in_catalog in Hfind.
  apply values_elem in Hfind as [k Hin].
  rewrite (Hids k r Hin). by apply dict_get_elem.
Qed.

(** X16. On a catalog that stores every operation under its own id, as
    the builder's catalogs do, each EFRSB convenience method either
    raises the resolver's error with the log untouched, or is the
    execution of the operation the resolver returns for the method's
    keywords: its URL is built from the given path parameters and
    [_request] runs with the given query and no body, files or headers.
    [UnknownOperationId] does not arise. *)
Theorem efrsb_helpers_execute_resolved_operation str_lower str_upper srv self :
  catalog_consistent (_operations self) ->
  let run keywords pp q :=
    match _find_op str_lower self keywords with
    | Return r =>
        let* url := lift (_build_url self (path r) (default [] pp)) in
        _request str_upper srv self (method r) url q None None None
    | Raise e => raise e
    end in
  (forall q,
     efrsb_search str_lower str_upper srv self q
     = run [lit "efrsb"; lit "search"; lit "find"; lit "query"; lit "lookup"]
           None (Some q)) /\
  (forall q pp,
     efrsb_get_debtor str_lower str_upper srv self q pp
     = run [lit "efrsb"; lit "debtor"; lit "subject"; lit "person"] pp q) /\
  (forall q pp,
     efrsb_get_case str_lower str_upper srv self q pp
     = run [lit "efrsb"; lit "case"; lit "proceeding"; lit "bankruptcycase"]
           pp q) /\
  (forall q,
     efrsb_list_notices str_lower str_upper srv self q
     = run [lit "efrsb"; lit "notice"; lit "notices"; lit "messages";
            lit "publications"] None (Some q)).
Proof.
  intros Hcat run. subst run.
  assert (forall keywords pp q,
    (let* op := lift (_find_op str_lower self keywords) in
     call str_upper srv self (operation_id op)
          {| path_params := pp; query := q; body := None;
             files := None; headers := None |})
    = match _find_op str_lower self keywords with
      | Return r =>
          let* url := lift (_build_url self (path r) (default [] pp)) in
          _request str_upper srv self (method r) url q None None None
      | Raise e => raise e
      end) as Hrun.
  { intros keywords pp q.
    destruct (_find_op str_lower self keywords) as [r|e] eqn:Hfind; [|done].
    unfold bind at 1, lift at 1. unfold call.
    by rewrite (resolved_op_lookup _ _ _ _ Hcat Hfind). }
  repeat split; intros; apply Hrun.
Qed.

(** ** What substitution can put into a URL *)

Lemma reserved_not_quoted v qv c :
  Quote.quote v = Some qv -> c ∈ lit "/?#{}" -> c ∉ qv.
Proof.
  intros Hqv Hreserved Hin.
  destruct (quote_chars v qv c Hqv Hin) as [Hsafe| ->].
  - revert Hsafe.
    repeat (apply elem_of_cons in Hreserved as [->|Hreserved]); try done.
    by apply elem_of_nil in Hreserved.
  - repeat (apply elem_of_cons in Hreserved as [?|Hreserved]); try done.
    by apply elem_of_nil in Hreserved.
Qed.

Lemma quote_values_some params quoted k v :
  quote_values params = Some quoted ->
  Dict.get k params = Some v ->
  exists qv, Quote.quote v = Some qv /\ Dict.get k quoted = Some qv.
Proof.
  revert quoted. induction params as [|[k' v'] params IH]; intros quoted;
    cbn [quote_values Dict.get]; [done|].
  destruct (Quote.quote v') as [qv'|] eqn:Hqv; [|done].
  destruct (quote_values params) as [rest|]; [|done].
  intros [= <-]. cbn [Dict.get].
  destruct (bool_decide (k = k')).
  - intros [= <-]. eauto.
  - by apply IH.
Qed.

(** A reserved character occurs in what stands for a piece as often as
    in what the piece keeps whatever the values are. *)
Lemma fill_reserved params quoted c p :
  quote_values params = Some quoted ->
  c ∈ lit "/?#{}" ->
  occurrences c (fill quoted p) = occurrences c (kept params p).
Proof.
  intros Hquoted Hreserved. destruct p as [s|k]; [done|].
  unfold fill, kept, Dict.contains.
  destruct (Dict.get k params) as [v|] eqn:Hget.
  - destruct (quote_values_some _ _ _ _ Hquoted Hget) as (qv & Hqv & ->).
    apply count_occ_not_In. rewrite <- list_elem_of_In.
    by apply (reserved_not_quoted v).
  - by rewrite (quote_values_get _ _ k Hquoted), Hget.
Qed.

(** X17. On a template whose braces only delimit placeholder names, all
    that [_build_url] puts into the URL for a path parameter is its
    percent-encoded value, made of unreserved characters (ASCII letters,
    digits, [_.-~]) and [%] only.  So a slash, a question mark, a hash or
    a brace occurs in the URL exactly as often as in the base URL and the
    template outside the placeholders that have a value: a value adds
    none. *)
Theorem build_url_adds_only_safe_characters self t params quoted :
  template_wf t ->
  123%N ∉ base_url self ->
  (forall k, k ∈ Dict.keys params -> brace_free k) ->
  quote_values params = Some quoted ->
  exists url,
    _build_url self (render t) params = Return url /\
    url = base_url self ++ flat_map (fill quoted) t /\
    (forall k v, Dict.get k params = Some v ->
       exists qv,
         Quote.quote v = Some qv /\
         Dict.get k quoted = Some qv /\
         forall c, c ∈ qv -> Quote.always_safe c = true \/ c = 37%N) /\
    (forall c, c ∈ lit "/?#{}" ->
       occurrences c url
       = occurrences c (base_url self ++ flat_map (kept params) t)).
Proof.
  intros Hwf Hbase Hkeys Hquoted. eexists. split; [|split; [reflexivity|split]].
  - by apply build_url_pieces.
  - intros k v Hget.
    destruct (quote_values_some _ _ _ _ Hquoted Hget) as (qv & Hqv & Hgetq).
    exists qv. repeat split; [done..|]. intros c. by apply (quote_chars v).
  - intros c Hreserved. unfold occurrences. rewrite !count_occ_app. f_equal.
    clear Hwf. induction t as [|p t IH]; [done|].
    cbn [flat_map]. rewrite !count_occ_app, IH. f_equal.
    by apply fill_reserved.
Qed.

(** ** The script, [main.py] *)

(** X18. When the script gets as far as printing, the client it built
    is the one [__init__] returns for the token of the script, the
    production base URL and the default settings, and what it prints are
    the least ids of that client's catalog: all of them when there are at
    most 20, otherwise 20 of them, each of which precedes every id left
    out; the printed list is not empty, ascending and without repetition.
    The run has made one or two requests, those for the schema; it calls
    no operation. *)
Theorem main_prints_sorted_ids str_lower str_upper json_loads srv
    default_headers l out l' :
  main str_lower str_upper json_loads srv default_headers l = (Return out, l') ->
  exists api,
    __init__ str_lower str_upper json_loads srv default_headers
             TOKEN (lit "https://legal-api.sirotinsky.com")
             DEFAULT_TIMEOUT DEFAULT_RETRIES DEFAULT_BACKOFF l
    = (Return api, l') /\
    out <> [] /\
    length out = Nat.min 20 (length (_operations api)) /\
    StronglySorted str_le out /\
    NoDup out /\
    (forall id, id ∈ out -> id ∈ Dict.keys (_operations api)) /\
    (forall id, id ∈ Dict.keys (_operations api) -> id ∉ out ->
       forall shown, shown ∈ out -> str_le shown id) /\
    base_url api = lit "https://legal-api.sirotinsky.com" /\
    (l' = l ++ [Requested (json_request api)] \/
     l' = l ++ [Requested (json_request api); Requested (yaml_request api)]).
Proof.
  unfold main, bind.
  destruct (__init__ _ _ _ _ _ _ _ _ _ _ l) as [[api|e] l1] eqn:Hinit; [|done].
  intros [= <- <-]. exists api. split; [done|].
  apply init_returns in Hinit as (Hbase & _ & _ & _ & _ & _ & Hbuild & Hlog).
  destruct (build_index_stored_well _ _ _ _ Hbuild) as (Hne & Hwf & _).
  pose proof (list_endpoints_Permutation api) as Hperm.
  assert (StronglySorted str_le (list_endpoints api)) as Hsorted
    by (apply Sorted_StronglySorted; [apply _ | apply list_endpoints_Sorted]).
  assert (NoDup (list_endpoints api)) as Hnodup by (by rewrite Hperm).
  assert (length (list_endpoints api) = length (_operations api)) as Hlen.
  { rewrite Hperm. unfold Dict.keys. by rewrite length_map. }
  rewrite <- (take_drop 20 (list_endpoints api)) in Hsorted, Hnodup.
  split; [|split; [|split; [|split; [|split; [|split; [|split]]]]]].
  - destruct (list_endpoints api) as [|id ids] eqn:Hlist; [|done].
    apply Permutation_nil in Hperm.
    destruct (_operations api); [done | discriminate].
  - rewrite length_take, Hlen. lia.
  - by apply StronglySorted_app_1_l in Hsorted.
  - by apply NoDup_app in Hnodup as (? & _).
  - intros id Hid. rewrite <- Hperm.
    by apply elem_of_take in Hid as (i & Hlook%list_elem_of_lookup_2 & _).
  - intros id Hid Hout shown Hshown.
    rewrite <- Hperm, <- (take_drop 20 (list_endpoints api)) in Hid.
    apply elem_of_app in Hid as [?|Hid]; [done|].
    by apply (StronglySorted_app_1_elem_of _ _ _ _ _ Hsorted).
  - by rewrite Hbase.
  - done.
Qed.

(** ** The further properties at concrete inputs *)

Lemma retry_then_success_witness :
  _request PyStr.ascii_upper
           (scripted [Responds (demo_error 503); Fails (Timeout (lit "t"))]
                     (Responds demo_ok))
           demo_client (lit "GET") demo_notices_url None None None None []
  = (Return (VJson (JDict [])),
     [] ++ backoff_schedule (demo_request demo_notices_url)
             (backoff demo_client) 1 2
        ++ [Requested (demo_request demo_notices_url)]).
Proof.
  apply (retry_then_success PyStr.ascii_upper _ demo_client (lit "GET")
           demo_notices_url None None None None
           (demo_request demo_notices_url) [] 2 demo_ok).
  - done.
  - reflexivity.
  - done.
  - intros [|[|i]] Hi; [reflexivity | reflexivity | lia].
  - reflexivity.
  - reflexivity.
  - reflexivity.
Defined.

Lemma terminal_outcome_ends_retries_witness :
  _request PyStr.ascii_upper
           (scripted [Responds (demo_error 503)] (Responds (demo_error 404)))
           demo_client (lit "GET") demo_notices_url None None None None []
  = (Raise (LegalAPIError
              (HttpError 404 demo_notices_url (lit "no")
                         (JDict [(lit "text", JStr (lit "no"))]))),
     [] ++ backoff_schedule (demo_request demo_notices_url)
             (backoff demo_client) 1 1
        ++ [Requested (demo_request demo_notices_url)]).
Proof.
  apply (proj1 (terminal_outcome_ends_retries PyStr.ascii_upper
                  (scripted [Responds (demo_error 503)]
                            (Responds (demo_error 404)))
                  demo_client (lit "GET") demo_notices_url None None None None
                  (demo_request demo_notices_url) [] 1
                  ltac:(done) eq_refl ltac:(done)
                  ltac:(intros [|i] Hi; [reflexivity | lia]))
               (demo_error 404)); reflexivity.
Defined.

Lemma exhaustion_error_only_without_attempts_witness :
  _request PyStr.ascii_upper (always (Responds demo_ok)) demo_client_negative
           (lit "GET") demo_notices_url None None None None []
  = (Raise (LegalAPIError (RequestFailedAfterRetries None)), []).
Proof.
  apply (proj1 (exhaustion_error_only_without_attempts PyStr.ascii_upper
                  (always (Responds demo_ok)) demo_client_negative (lit "GET")
                  demo_notices_url None None None None)).
  done.
Defined.

Lemma request_carries_merged_headers_witness :
  exists evs,
    snd (_request PyStr.ascii_upper (always (Responds demo_ok)) demo_client
                  (lit "get") demo_notices_url None None None
                  (Some [(lit "Accept", lit "text/csv")]) [])
    = [] ++ evs /\
    forall rq, Requested rq ∈ evs ->
      rq_method rq = PyStr.ascii_upper (lit "get") /\
      rq_timeout rq = timeout demo_client /\
      exists hs,
        rq_headers rq = Some hs /\
        forall k,
          Dict.get k hs
          = match Dict.get k (default [] (Some [(lit "Accept", lit "text/csv")])) with
            | Some v => Some v
            | None => Dict.get k (session_headers demo_client)
            end.
Proof.
  apply (request_carries_merged_headers PyStr.ascii_upper
           (always (Responds demo_ok)) demo_client (lit "get") demo_notices_url
           None None None (Some [(lit "Accept", lit "text/csv")]) []
           (fst (_request PyStr.ascii_upper (always (Responds demo_ok))
                          demo_client (lit "get") demo_notices_url None None None
                          (Some [(lit "Accept", lit "text/csv")]) []))).
  - unfold Dict.wf. cbn. compute_done.
  - reflexivity.
Defined.

Lemma load_schema_primary_short_circuits_witness :
  _load_openapi_schema demo_json_loads (always (Responds demo_schema_response))
                       demo_client []
  = (Return demo_schema,
     [] ++ [Requested (get_kwargs demo_client
                         (base_url demo_client ++ lit "/openapi.json") None)]).
Proof.
  apply (load_schema_primary_short_circuits demo_json_loads
           (always (Responds demo_schema_response)) demo_client []
           demo_schema_response); reflexivity.
Defined.

Lemma load_schema_falls_back_witness :
  _load_openapi_schema demo_json_loads
    (scripted [Fails (ConnectionError (lit "refused"))] (Responds demo_ok))
    demo_client []
  = (Return (JDict []),
     [] ++ [Requested (get_kwargs demo_client
                         (base_url demo_client ++ lit "/openapi.json") None);
            Requested (get_kwargs demo_client
                         (base_url demo_client ++ lit "/openapi.yaml")
                         (Some [(lit "Accept", lit "application/yaml, */*")]))]).
Proof.
  apply (load_schema_falls_back demo_json_loads
           (scripted [Fails (ConnectionError (lit "refused"))] (Responds demo_ok))
           demo_client [] demo_ok); [exact I | reflexivity..].
Defined.

Lemma built_catalog_consistent_witness :
  _operations demo_built_client <> [] /\
  catalog_consistent (_operations demo_built_client) /\
  forall k op, (k, op) ∈ _operations demo_built_client ->
    (exists m, method op = PyStr.ascii_upper m) /\
    path op ∈ Dict.keys (schema_paths demo_schema).
Proof.
  exact (built_catalog_consistent PyStr.ascii_lower PyStr.ascii_upper
           demo_schema (_operations demo_built_client) eq_refl).
Defined.

Lemma colliding_ids_last_entry_wins_witness :
  Dict.get (lit "x")
           [(lit "x", mkOperation (lit "POST") (lit "/a") (lit "x"));
            (lit "y", mkOperation (lit "GET") (lit "/b") (lit "y"))]
  = option_map (operation_of PyStr.ascii_lower PyStr.ascii_upper)
      (last_with_id PyStr.ascii_lower (lit "x")
         (operation_entries (schema_paths demo_colliding_schema))) /\
  length [(lit "x", mkOperation (lit "POST") (lit "/a") (lit "x"));
          (lit "y", mkOperation (lit "GET") (lit "/b") (lit "y"))]
  = length (remove_dups
              (List.map (entry_id PyStr.ascii_lower)
                 (operation_entries (schema_paths demo_colliding_schema)))).
Proof.
  destruct (colliding_ids_last_entry_wins PyStr.ascii_lower PyStr.ascii_upper
              demo_colliding_schema
              [(lit "x", mkOperation (lit "POST") (lit "/a") (lit "x"));
               (lit "y", mkOperation (lit "GET") (lit "/b") (lit "y"))]
              eq_refl eq_refl) as (Hget & _ & Hlen).
  split; [apply Hget | apply Hlen].
Defined.

Lemma init_establishes_client_witness :
  base_url demo_built_client
    = PyStr.rstrip (lit "/") (lit "https://legal-api.sirotinsky.com//") /\
  last (base_url demo_built_client) <> Some 47%N /\
  timeout demo_built_client = DEFAULT_TIMEOUT /\
  retries demo_built_client = DEFAULT_RETRIES /\
  backoff demo_built_client = DEFAULT_BACKOFF /\
  Dict.get (lit "Authorization") (session_headers demo_built_client)
    = Some (lit "Bearer " ++ lit "t") /\
  Dict.get (lit "Accept") (session_headers demo_built_client)
    = Some (lit "application/json, */*") /\
  Dict.get (lit "User-Agent") (session_headers demo_built_client)
    = Some (lit "LegalAPI-Client/1.0") /\
  (forall k, k ∉ [lit "Authorization"; lit "Accept"; lit "User-Agent"] ->
     Dict.get k (session_headers demo_built_client)
     = Dict.get k demo_default_headers) /\
  _load_openapi_schema demo_json_loads (always (Responds demo_schema_response))
                       demo_built_client []
    = (Return (_schema demo_built_client),
       [Requested (json_request demo_built_client)]) /\
  (match primary_doc (always (Responds demo_schema_response) (requests_in [])
                             (json_request demo_built_client)) with
   | Some doc => _schema demo_built_client = doc
   | None =>
       secondary_doc demo_json_loads
         (always (Responds demo_schema_response) (S (requests_in []))
                 (yaml_request demo_built_client))
       = Some (_schema demo_built_client)
   end) /\
  _build_operations_index PyStr.ascii_lower PyStr.ascii_upper
                          (_schema demo_built_client)
    = Return (_operations demo_built_client) /\
  _operations demo_built_client <> [] /\
  catalog_consistent (_operations demo_built_client) /\
  ([Requested (json_request demo_built_client)]
     = [] ++ [Requested (json_request demo_built_client)] \/
   [Requested (json_request demo_built_client)]
     = [] ++ [Requested (json_request demo_built_client);
              Requested (yaml_request demo_built_client)]).
Proof.
  exact (init_establishes_client PyStr.ascii_lower PyStr.ascii_upper
           demo_json_loads (always (Responds demo_schema_response))
           demo_default_headers (lit "t")
           (lit "https://legal-api.sirotinsky.com//")
           DEFAULT_TIMEOUT DEFAULT_RETRIES DEFAULT_BACKOFF []
           demo_built_client [Requested (json_request demo_built_client)]
           eq_refl).
Defined.

Lemma find_op_loose_fallback_first_match_witness :
  exists r earlier later,
    _find_op PyStr.ascii_lower demo_client [lit "inn"; lit "Debtor"] = Return r /\
    Dict.values (_operations demo_client) = earlier ++ r :: later /\
    any_match PyStr.ascii_lower [lit "inn"; lit "Debtor"] r /\
    forall op, op ∈ earlier ->
      ~ any_match PyStr.ascii_lower [lit "inn"; lit "Debtor"] op.
Proof.
  apply find_op_loose_fallback_first_match.
  - intros op Hop Hfull%matches_all_spec. revert Hfull.
    repeat (apply elem_of_cons in Hop as [->|Hop]); try done.
    by apply elem_of_nil in Hop.
  - exists (mkOperation (lit "GET") (lit "/efrsb/debtors/{id}")
                        (lit "getEFRSBDebtor")).
    split; [right; left|]. apply matches_any_spec. reflexivity.
Defined.

Lemma efrsb_helpers_execute_resolved_operation_witness :
  efrsb_get_debtor PyStr.ascii_lower PyStr.ascii_upper
                   (always (Responds demo_ok)) demo_client None
                   (Some [(lit "id", lit "12345")])
  = match _find_op PyStr.ascii_lower demo_client
            [lit "efrsb"; lit "debtor"; lit "subject"; lit "person"] with
    | Return r =>
        let* url := lift (_build_url demo_client (path r)
                            (default [] (Some [(lit "id", lit "12345")]))) in
        _request PyStr.ascii_upper (always (Responds demo_ok)) demo_client
                 (method r) url None None None None
    | Raise e => raise e
    end.
Proof.
  assert (catalog_consistent (_operations demo_client)) as Hcat.
  { split; [unfold Dict.wf; cbn; compute_done|].
    intros k op Hin.
    repeat (apply elem_of_cons in Hin as [[= -> ->]|Hin]); try done.
    by apply elem_of_nil in Hin. }
  apply (proj1 (proj2 (efrsb_helpers_execute_resolved_operation
                         PyStr.ascii_lower PyStr.ascii_upper
                         (always (Responds demo_ok)) demo_client Hcat))).
Defined.

Lemma build_url_adds_only_safe_characters_witness :
  exists url,
    _build_url demo_client (render demo_template) demo_path_params
    = Return url /\
    url = base_url demo_client ++ flat_map (fill demo_quoted) demo_template /\
    (forall k v, Dict.get k demo_path_params = Some v ->
       exists qv,
         Quote.quote v = Some qv /\
         Dict.get k demo_quoted = Some qv /\
         forall c, c ∈ qv -> Quote.always_safe c = true \/ c = 37%N) /\
    (forall c, c ∈ lit "/?#{}" ->
       occurrences c url
       = occurrences c (base_url demo_client
                        ++ flat_map (kept demo_path_params) demo_template)).
Proof.
  apply (build_url_adds_only_safe_characters demo_client demo_template
           demo_path_params demo_quoted).
  - exact demo_template_wf.
  - exact demo_base_url_no_brace.
  - exact demo_path_params_names.
  - reflexivity.
Defined.

Lemma main_prints_sorted_ids_witness :
  exists api,
    __init__ PyStr.ascii_lower PyStr.ascii_upper demo_json_loads
             (always (Responds demo_schema_response)) demo_default_headers
             TOKEN (lit "https://legal-api.sirotinsky.com")
             DEFAULT_TIMEOUT DEFAULT_RETRIES DEFAULT_BACKOFF []
    = (Return api, [Requested (json_request demo_client)]) /\
    [lit "get_efrsb_debtors_id"; lit "searchEFRSBNotices"] <> [] /\
    length [lit "get_efrsb_debtors_id"; lit "searchEFRSBNotices"]
    = Nat.min 20 (length (_operations api)) /\
    StronglySorted str_le
      [lit "get_efrsb_debtors_id"; lit "searchEFRSBNotices"] /\
    NoDup [lit "get_efrsb_debtors_id"; lit "searchEFRSBNotices"] /\
    (forall id, id ∈ [lit "get_efrsb_debtors_id"; lit "searchEFRSBNotices"] ->
       id ∈ Dict.keys (_operations api)) /\
    (forall id, id ∈ Dict.keys (_operations api) ->
       id ∉ [lit "get_efrsb_debtors_id"; lit "searchEFRSBNotices"] ->
       forall shown,
         shown ∈ [lit "get_efrsb_debtors_id"; lit "searchEFRSBNotices"] ->
         str_le shown id) /\
    base_url api = lit "https://legal-api.sirotinsky.com" /\
    ([Requested (json_request demo_client)]
       = [] ++ [Requested (json_request api)] \/
     [Requested (json_request demo_client)]
       = [] ++ [Requested (json_request api); Requested (yaml_request api)]).
Proof.
  exact (main_prints_sorted_ids PyStr.ascii_lower PyStr.ascii_upper
           demo_json_loads (always (Responds demo_schema_response))
           demo_default_headers []
           [lit "get_efrsb_debtors_id"; lit "searchEFRSBNotices"]
           [Requested (json_request demo_client)] eq_refl).
Defined.
